(** * WebMining: the books.toscrape.com crawler (scraper.py, books_scraper.py)

    A shallow embedding of the crawl / retry / checkpoint / persistence
    pipeline of [scraper.py] and of the two parsing helpers it shares with
    [books_scraper.py], followed by the properties of the specification.

    Conventions of the embedding.
    - A Python [str] is a [string]: the UTF-8 bytes of the text.  Every
      character outside ASCII is a run of bytes above 127, so a filter or a
      test on ASCII characters reads the same on bytes and on code points.
      White space is the white space of Unicode, as [str.strip] sees it.
      [str.capitalize] follows the case tables of the interpreter's
      Unicode: it is a function of the surroundings, known on ASCII text.
    - A Python exception is a value of [exn]; a computation that may raise
      returns a [result].
    - The value of [float(s)] is kept as the exact decimal it denotes, a
      reduced fraction of [Q]; the rounding to binary64 that Python applies
      afterwards is the same on both sides of every equation below.
    - A page is what BeautifulSoup finds in it ([html]); a CSV file is its
      lines of cells ([Csv.table]); checkpoint.json is what [json.load]
      makes of it ([checkpoint_file]).  The reader of the [csv] module
      refuses a cell longer than its field limit.
    - The network, the clock and the failures of the disk are oracles of
      an [Env]; the files, the counters of the oracles and a trace of what
      the program did are a [State], threaded through the [io] monad.
      Logging is left out.
    - [while next_url] may run for ever on a site whose pages point to one
      another; the loop takes a bound on its turns and tells whether it
      ended within it. *)

From Stdlib Require Import ZArith QArith Ascii String DecimalString.
From stdpp Require Import gmap strings list sorting.

Close Scope Q_scope.
Local Open Scope string_scope.
Local Open Scope Z_scope.
Local Open Scope list_scope.

(** ** Exceptions and results *)

Inductive exn : Type :=
  | ValueError
  | AttributeError
  | TypeError
  | OSError
  | CsvError                      (* csv.Error *)
  | RequestException.

Inductive result (A : Type) : Type :=
  | Ok (a : A)
  | Raise (e : exn).
Arguments Ok {A} a.
Arguments Raise {A} e.

Definition exn_eqb (a b : exn) : bool :=
  match a, b with
  | ValueError, ValueError | AttributeError, AttributeError
  | TypeError, TypeError | OSError, OSError | CsvError, CsvError
  | RequestException, RequestException => true
  | _, _ => false
  end.

Module Py.

Definition bind {A B} (r : result A) (k : A → result B) : result B :=
  match r with
  | Ok a => k a
  | Raise e => Raise e
  end.

(** [try: body / except Exception: handler] *)
Definition try_except {A} (body : result A) (handler : exn → result A)
  : result A :=
  match body with
  | Ok a => Ok a
  | Raise e => handler e
  end.

(** [try: body / except E: handler], one exception class only *)
Definition try_except_only {A} (cls : exn) (body : result A)
    (handler : result A) : result A :=
  match body with
  | Ok a => Ok a
  | Raise e => if exn_eqb e cls then handler else Raise e
  end.

End Py.

(** ** Text helpers (the parts of [str] and [re] the scripts call) *)

Module Text.

Definition is_digit (c : ascii) : bool :=
  let n := nat_of_ascii c in (48 <=? n)%nat && (n <=? 57)%nat.

Definition is_dot (c : ascii) : bool := (nat_of_ascii c =? 46)%nat.

Definition is_upper (c : ascii) : bool :=
  let n := nat_of_ascii c in (65 <=? n)%nat && (n <=? 90)%nat.

Definition is_lower (c : ascii) : bool :=
  let n := nat_of_ascii c in (97 <=? n)%nat && (n <=? 122)%nat.

(** The white space of ASCII for [str]: TAB, LF, VT, FF, CR, FS, GS, RS,
    US, SPACE. *)
Definition is_space (c : ascii) : bool :=
  let n := nat_of_ascii c in
  ((9 <=? n)%nat && (n <=? 13)%nat)
  || ((28 <=? n)%nat && (n <=? 32)%nat).

(** The white space outside ASCII, in UTF-8.  Two bytes: U+0085 and
    U+00A0. *)
Definition is_space2 (a b : ascii) : bool :=
  (nat_of_ascii a =? 194)%nat
  && ((nat_of_ascii b =? 133)%nat || (nat_of_ascii b =? 160)%nat).

(** Three bytes: U+1680, U+2000 to U+200A, U+2028, U+2029, U+202F, U+205F
    and U+3000. *)
Definition is_space3 (a b c : ascii) : bool :=
  let x := nat_of_ascii a in
  let y := nat_of_ascii b in
  let z := nat_of_ascii c in
  ((x =? 225)%nat && (y =? 154)%nat && (z =? 128)%nat)
  || ((x =? 226)%nat && (y =? 128)%nat
      && (((128 <=? z)%nat && (z <=? 138)%nat)
          || (z =? 168)%nat || (z =? 169)%nat || (z =? 175)%nat))
  || ((x =? 226)%nat && (y =? 129)%nat && (z =? 159)%nat)
  || ((x =? 227)%nat && (y =? 128)%nat && (z =? 128)%nat).

(** The text is one white space character and nothing else. *)
Definition space_run (s : string) : bool :=
  match s with
  | String a EmptyString => is_space a
  | String a (String b EmptyString) => is_space2 a b
  | String a (String b (String c EmptyString)) => is_space3 a b c
  | _ => false
  end.

Definition upper_char (c : ascii) : ascii :=
  if is_lower c then ascii_of_nat (nat_of_ascii c - 32) else c.

Definition lower_char (c : ascii) : ascii :=
  if is_upper c then ascii_of_nat (nat_of_ascii c + 32) else c.

Fixpoint filter (keep : ascii → bool) (s : string) : string :=
  match s with
  | EmptyString => EmptyString
  | String c s' =>
      if keep c then String c (filter keep s') else filter keep s'
  end.

Fixpoint map (f : ascii → ascii) (s : string) : string :=
  match s with
  | EmptyString => EmptyString
  | String c s' => String (f c) (map f s')
  end.

(** [s.lower()] on the letters of ASCII.  It is asked one thing only,
    whether "review" occurs in the result; no character outside ASCII has
    a lower case that can take part in an occurrence of that word. *)
Definition lower (s : string) : string := map lower_char s.

(** What [s.capitalize()] gives on a text of ASCII: first character upper
    case, the rest lower case.  Outside ASCII the method follows the case
    tables of Unicode, which are not written out here: the parsers take
    [str.capitalize] as an argument. *)
Definition capitalize_ascii (s : string) : string :=
  match s with
  | EmptyString => EmptyString
  | String c s' => String (upper_char c) (lower s')
  end.

(** [s.lstrip()]: the white space characters at the start go, of one, two
    or three bytes. *)
Fixpoint lstrip (s : string) : string :=
  match s with
  | EmptyString => EmptyString
  | String a s1 =>
      if is_space a then lstrip s1
      else
        match s1 with
        | EmptyString => s
        | String b s2 =>
            if is_space2 a b then lstrip s2
            else
              match s2 with
              | EmptyString => s
              | String c s3 => if is_space3 a b c then lstrip s3 else s
              end
        end
  end.

(** [s.rstrip()]: reading from the right, what is left of the text is
    dropped as long as it is one white space character. *)
Fixpoint rstrip (s : string) : string :=
  match s with
  | EmptyString => EmptyString
  | String c s' =>
      let r := String c (rstrip s') in
      if space_run r then EmptyString else r
  end.

(** [s.strip()] *)
Definition strip (s : string) : string := rstrip (lstrip s).

Fixpoint all (p : ascii → bool) (s : string) : bool :=
  match s with
  | EmptyString => true
  | String c s' => p c && all p s'
  end.

Fixpoint count (p : ascii → bool) (s : string) : nat :=
  match s with
  | EmptyString => O
  | String c s' => (if p c then 1 else 0) + count p s'
  end.

(** [needle in s] *)
Fixpoint contains (needle s : string) : bool :=
  String.prefix needle s
  || match s with
     | EmptyString => false
     | String _ s' => contains needle s'
     end.

(** truth value of a string: [bool(s)] *)
Definition truthy (s : string) : bool :=
  match s with
  | EmptyString => false
  | String _ _ => true
  end.

(** The text has characters of ASCII only. *)
Definition is_ascii (s : string) : bool :=
  all (λ c, (nat_of_ascii c <? 128)%nat) s.

(** [len(s)]: the number of characters, each being one byte that is not a
    continuation byte of UTF-8 (128 to 191) and the continuation bytes
    that follow it. *)
Fixpoint code_points (s : string) : N :=
  match s with
  | EmptyString => 0%N
  | String c s' =>
      let n := nat_of_ascii c in
      ((if (n <? 128)%nat || (192 <=? n)%nat then 1 else 0)
       + code_points s')%N
  end.

End Text.

(** ** [float] on the strings [re.sub] leaves *)

Module Float.

Definition digit_value (c : ascii) : Z := Z.of_nat (nat_of_ascii c) - 48.

(** decimal value of a run of digits, most significant first *)
Fixpoint digits_value (acc : Z) (s : string) : Z :=
  match s with
  | EmptyString => acc
  | String c s' => digits_value (10 * acc + digit_value c) s'
  end.

(** the text before the first dot, and the text after it if there is one *)
Fixpoint split_dot (s : string) : string * option string :=
  match s with
  | EmptyString => (EmptyString, None)
  | String c s' =>
      if Text.is_dot c then (EmptyString, Some s')
      else let '(i, f) := split_dot s' in (String c i, f)
  end.

(** [float(s)].  The accepted texts are those of Python's grammar built
    from digits and dots: [ddd], [ddd.], [.ddd], [ddd.ddd].  Anything else
    raises [ValueError]: the empty text, a lone dot, two dots, and any
    character that is not a digit or a dot (signs, exponents and the other
    forms of the full grammar do not survive [re.sub] and are left out). *)
Definition float (s : string) : result Q :=
  let '(i, f) := split_dot s in
  let f' := default EmptyString f in
  if Text.all Text.is_digit i && Text.all Text.is_digit f'
     && negb (Nat.eqb (String.length i + String.length f') 0)
  then Ok (Qred (Qmake (digits_value 0 (i ++ f'))
                       (Z.to_pos (10 ^ Z.of_nat (String.length f')))))
  else Raise ValueError.

End Float.

(** ** The parsing helpers *)

Definition RATING_MAP : gmap string Z :=
  {[ "One" := 1; "Two" := 2; "Three" := 3; "Four" := 4; "Five" := 5 ]}.

(** [re.sub(r"[^0-9.]", "", s)] *)
Definition strip_non_numeric (s : string) : string :=
  Text.filter (λ c, Text.is_digit c || Text.is_dot c) s.

Module Scraper.

(** scraper.py, [parse_price]: the whole body sits in
    [try / except Exception]. *)
Definition parse_price (price_str : string) : result Q :=
  Py.try_except
    (let cleaned := strip_non_numeric price_str in
     if Text.truthy cleaned then Float.float cleaned else Ok 0%Q)
    (λ _, Ok 0%Q).

(** scraper.py, [parse_rating], with [str.capitalize] as [capitalize].
    The methods called on a [str] do not raise, so on a list of strings
    the [except] branch is never taken and the function is its loop. *)
Fixpoint parse_rating (capitalize : string → string) (classes : list string)
  : Z :=
  match classes with
  | [] => 0
  | cls :: rest =>
      if negb (Text.truthy cls) then parse_rating capitalize rest
      else
        let key := Text.strip cls in
        match RATING_MAP !! key with
        | Some v => v
        | None =>
            let k2 := capitalize key in
            match RATING_MAP !! k2 with
            | Some v => v
            | None => parse_rating capitalize rest
            end
        end
  end.

End Scraper.

Module BooksScraper.

(** books_scraper.py, [parse_price]: only [float] is guarded, and only
    against [ValueError]. *)
Definition parse_price (price_text : string) : result Q :=
  let cleaned := strip_non_numeric price_text in
  Py.try_except_only ValueError (Float.float cleaned) (Ok 0%Q).

(** books_scraper.py, [parse_rating], with [str.capitalize] as
    [capitalize] *)
Fixpoint parse_rating (capitalize : string → string) (classes : list string)
  : Z :=
  match classes with
  | [] => 0
  | cls :: rest =>
      if Text.truthy cls && negb (String.eqb cls "star-rating") then
        let text := capitalize cls in
        match RATING_MAP !! text with
        | Some v => v
        | None => parse_rating capitalize rest
        end
      else parse_rating capitalize rest
  end.

End BooksScraper.

(** ** CSV files as the [csv] module reads and writes them *)

Module Csv.

(** A file is its lines and a line is its cells; the first line is the
    header.  Quoting and line ends are below the model. *)
Definition line : Type := list string.
Definition table : Type := list line.

(** A row of [csv.DictReader]: a dict keyed by the names of the header.
    A short line leaves its last names mapped to [None] (restval); a long
    line keeps its extra cells under the key [None] (restkey). *)
Record row : Type := Row {
  named : gmap string (option string);
  rest : option (list string)
}.

Definition pad (n : nat) (cells : line) : list (option string) :=
  ((Some <$> cells) ++ replicate (n - length cells) None).

(** [dict(zip(fieldnames, cells))], a later duplicate name winning *)
Definition read_row (names : list string) (cells : line) : row :=
  {| named := list_to_map (reverse (zip names (pad (length names) cells)));
     rest := if (length names <? length cells)%nat
             then Some (drop (length names) cells) else None |}.

(** [csv.DictReader(f)]: the first line gives the names, blank lines are
    skipped. *)
Definition dict_reader (t : table) : list row :=
  match t with
  | [] => []
  | names :: lines => read_row names <$> filter (λ l, l ≠ []) lines
  end.

(** [csv.field_size_limit()], which the scripts leave at its default. *)
Definition field_size_limit : N := 131072.

(** The file has a cell longer than the limit, in its header or below. *)
Definition oversized (t : table) : bool :=
  existsb (existsb (λ cell, (field_size_limit <? Text.code_points cell)%N)) t.

(** [for row in csv.DictReader(f)], to the end of the file: the rows, or
    [csv.Error] ("field larger than field limit") when the reader meets a
    cell that is too long. *)
Definition read (t : table) : result (list row) :=
  if oversized t then Raise CsvError else Ok (dict_reader t).

(** [row.get(k)] *)
Definition get (k : string) (r : row) : option string :=
  mjoin (named r !! k).

(** [csv.DictWriter(f, fieldnames).writerow(r)]: [ValueError] when the
    dict has a key that is not a field name, else one cell per field name,
    the empty text for a missing or [None] value. *)
Definition writerow (fieldnames : list string) (r : row) : result line :=
  if bool_decide (dom (named r) ⊆ list_to_set (C := gset string) fieldnames)
     && bool_decide (rest r = None)
  then Ok ((λ f, default "" (get f r)) <$> fieldnames)
  else Raise ValueError.

(** [for r in rows: writer.writerow(r)]: the lines written before the
    first exception, and whether there was one. *)
Fixpoint writerows (fieldnames : list string) (rows : list row)
  : list line * bool :=
  match rows with
  | [] => ([], true)
  | r :: rows' =>
      match writerow fieldnames r with
      | Ok l => let '(ls, ok) := writerows fieldnames rows' in (l :: ls, ok)
      | Raise _ => ([], false)
      end
  end.

End Csv.

(** ** Deduplication *)

(** The dict [seen] of [deduplicate_csv]: keys in insertion order. *)
Definition seen_dict : Type := list (string * Csv.row).

Definition seen_has (key : string) (seen : seen_dict) : bool :=
  bool_decide (key ∈ seen.*1).

(** One turn of the reading loop of [deduplicate_csv]. *)
Definition seen_step (key_field : string) (seen : seen_dict) (r : Csv.row)
  : seen_dict :=
  match Csv.get key_field r with
  | Some key =>
      if Text.truthy key && negb (seen_has key seen)
      then (seen ++ [(key, r)])
      else seen
  | None => seen
  end.

Definition collect_seen (key_field : string) (rows : list Csv.row) : seen_dict :=
  foldl (seen_step key_field) [] rows.

(** What the second half of [deduplicate_csv] writes for the rows read:
    the header, then the rows of [seen.values()] up to the first one
    [writerow] rejects. *)
Definition rewritten (key_field : string) (fieldnames : list string)
    (rows : list Csv.row) : Csv.table :=
  let seen := collect_seen key_field rows in
  fieldnames :: (Csv.writerows fieldnames seen.*2).1.

(** What [deduplicate_csv] leaves in a file that held [t], once [t] has
    been read to its end. *)
Definition dedup_table (key_field : string) (fieldnames : list string)
    (t : Csv.table) : Csv.table :=
  rewritten key_field fieldnames (Csv.dict_reader t).

(** ** JSON values, as [json.load] returns them *)

#[warnings="-register-all"]
Inductive json : Type :=
  | JNull
  | JBool (b : bool)
  | JNum (n : Z)                 (* a number; only whether it is zero matters here *)
  | JStr (s : string)
  | JArr (l : list json)
  | JObj (m : gmap string json).

(** [bool(v)] *)
Definition json_truthy (v : json) : bool :=
  match v with
  | JNull => false
  | JBool b => b
  | JNum n => negb (n =? 0)
  | JStr s => Text.truthy s
  | JArr l => negb (bool_decide (length l = 0%nat))
  | JObj m => negb (bool_decide (size m = 0%nat))
  end.

(** [a or b] *)
Definition py_or (a b : json) : json := if json_truthy a then a else b.

(** [v.get(k)]: only a dict has the method. *)
Definition json_get (v : json) (k : string) : result json :=
  match v with
  | JObj m => Ok (default JNull (m !! k))
  | _ => Raise AttributeError
  end.

(** ** Pages, as BeautifulSoup hands them to the crawler *)

(** The [a] of an article's [h3]. *)
Record anchor : Type := Anchor {
  a_title : option string;       (* a.get("title") *)
  a_text : string;               (* a.get_text(strip=True) *)
  a_href : option string         (* a.get("href") *)
}.

(** An [article.product_pod]. *)
Record article : Type := Article {
  art_link : option anchor;             (* h3 > a, if both tags are there *)
  art_price : option string;            (* text of p.price_color *)
  art_rating : option (list string)     (* classes of p.star-rating *)
}.

(** A line of the product information table. *)
Record table_row : Type := TableRow {
  th : option string;            (* th.get_text(strip=True) *)
  td : option string             (* td.get_text(strip=True) *)
}.

Record html : Type := Html {
  articles : list article;                (* soup.select("article.product_pod") *)
  next_link : option (option string);     (* li.next > a, and its href *)
  info_table : option (list table_row)    (* table.table-striped *)
}.

Inductive http_outcome : Type :=
  | Response (status_code : Z) (soup : html)
  | NetworkError.

(** ** The crawler's surroundings and its state *)

(** One scraped product, the dict [row] of [scrape]. *)
Record item : Type := Item {
  title : string;
  price : Q;
  rating : Z;
  number_of_reviews : Z;
  product_page_url : string;
  scraped_at : string
}.

Inductive event : Type :=
  | EGet (url : string)                         (* session.get sent *)
  | ESleep                                      (* time.sleep(POLITE_DELAY) *)
  | EAppend (rows : list item) (ok : bool)      (* the page's rows, and whether the block raised *)
  | EPrint (saved page : nat)                   (* "Saved n rows from page p" *)
  | ESave (data : json) (ok : bool)             (* save_checkpoint, and whether it was written *)
  | EDedup.

(** checkpoint.json *)
Inductive checkpoint_file : Type :=
  | CkAbsent
  | CkUnreadable                  (* exists, [open] raises *)
  | CkInvalid                     (* exists, [json.load] raises *)
  | CkJson (v : json).

(** How writing a file anew goes. *)
Inductive save_fault : Type :=
  | SaveOk
  | SaveOpenFails                 (* [open] raises, the disk is left as it was *)
  | SaveWriteFails.               (* the write raises, the file is left truncated *)

(** How writing products.csv anew goes. *)
Inductive rewriting : Type :=
  | RewriteOk
  | RewriteOpenFails              (* [open] raises, the file is left as it was *)
  | RewriteStops (k : nat).       (* a write raises, the file is left with k lines *)

(** What the program does not control.  Each oracle is indexed by the number
    of calls made before. *)
Record Env : Type := {
  net : nat → string → http_outcome;     (* answer to the n-th GET *)
  utcnow : nat → string;                 (* datetime.utcnow().isoformat() *)
  append_fault : nat → option nat;       (* [Some k]: the append raises after k rows *)
  save_faults : nat → save_fault;
  header_fault : save_fault;             (* how creating products.csv goes *)
  read_fault : Csv.table → bool;         (* reading products.csv raises: it cannot be opened or decoded *)
  rewrite_fault : rewriting;             (* how the rewriting of products.csv goes *)
  urljoin : string → string → result string;   (* urllib.parse.urljoin; [ValueError] for a URL it cannot parse *)
  capitalize : string → string;          (* str.capitalize *)
  float_repr : Q → string;               (* str of a float *)
  int_of_text : string → option Z        (* int(text), [None] for ValueError *)
}.

Record State : Type := {
  requests : nat;
  appends : nat;
  saves : nat;
  csv : option Csv.table;           (* products.csv *)
  checkpoint : checkpoint_file;
  trace : list event                (* oldest first *)
}.

Definition io (A : Type) : Type := State → result A * State.

#[export] Instance io_ret : MRet io := λ A a st, (Ok a, st).
#[export] Instance io_bind : MBind io := λ A B k m st,
  match m st with
  | (Ok a, st') => k a st'
  | (Raise e, st') => (Raise e, st')
  end.

Module IO.

Definition lift {A} (r : result A) : io A := λ st, (r, st).

(** [try: body / except Exception: handler]; what the body did before it
    raised stays done. *)
Definition try_except {A} (body : io A) (handler : exn → io A) : io A :=
  λ st, match body st with
        | (Ok a, st') => (Ok a, st')
        | (Raise e, st') => handler e st'
        end.

Definition try_except_only {A} (cls : exn) (body : io A) (handler : io A)
  : io A :=
  λ st, match body st with
        | (Ok a, st') => (Ok a, st')
        | (Raise e, st') =>
            if exn_eqb e cls then handler st' else (Raise e, st')
        end.

Definition emit (e : event) : io unit := λ st,
  (Ok tt, {| requests := requests st; appends := appends st;
             saves := saves st; csv := csv st;
             checkpoint := checkpoint st;
             trace := (trace st ++ [e]) |}).

Definition set_csv (t : option Csv.table) : io unit := λ st,
  (Ok tt, {| requests := requests st; appends := appends st;
             saves := saves st; csv := t;
             checkpoint := checkpoint st; trace := trace st |}).

Definition set_checkpoint (c : checkpoint_file) : io unit := λ st,
  (Ok tt, {| requests := requests st; appends := appends st;
             saves := saves st; csv := csv st;
             checkpoint := c; trace := trace st |}).

Definition tick_requests : io nat := λ st,
  (Ok (requests st),
   {| requests := S (requests st); appends := appends st;
      saves := saves st; csv := csv st;
      checkpoint := checkpoint st; trace := trace st |}).

Definition tick_appends : io nat := λ st,
  (Ok (appends st),
   {| requests := requests st; appends := S (appends st);
      saves := saves st; csv := csv st;
      checkpoint := checkpoint st; trace := trace st |}).

Definition tick_saves : io nat := λ st,
  (Ok (saves st),
   {| requests := requests st; appends := appends st;
      saves := S (saves st); csv := csv st;
      checkpoint := checkpoint st; trace := trace st |}).

Definition get_csv : io (option Csv.table) := λ st, (Ok (csv st), st).
Definition get_checkpoint : io checkpoint_file := λ st, (Ok (checkpoint st), st).
Definition get_requests : io nat := λ st, (Ok (requests st), st).

End IO.

(** ** scraper.py: constants *)

Definition BASE_URL : string := "http://books.toscrape.com/".
Definition RETRY_ATTEMPTS : nat := 3.

Definition fieldnames : list string :=
  ["title"; "price"; "rating"; "number_of_reviews"; "product_page_url";
   "scraped_at"].

(** [str(n)] for an [int] *)
Definition int_repr (n : Z) : string :=
  DecimalString.NilZero.string_of_int (Z.to_int n).

(** ** scraper.py: the functions *)

Section Crawler.

Variable env : Env.

(** [time.sleep(POLITE_DELAY)] *)
Definition sleep : io unit := IO.emit ESleep.

(** [session.get(url, timeout=REQUEST_TIMEOUT)]; a failure of the
    transport is a [requests.RequestException]. *)
Definition session_get (url : string) : io (Z * html) :=
  n ← IO.tick_requests;
  IO.emit (EGet url);;
  match net env n url with
  | Response status_code soup => mret (status_code, soup)
  | NetworkError => IO.lift (Raise RequestException)
  end.

(** The [try] block of one attempt of [retry_get]: the page when it is
    returned, [None] when the loop goes on. *)
Definition attempt_block (url : string) : io (option html) :=
  IO.try_except_only RequestException
    (resp ← session_get url;
     if resp.1 =? 200 then sleep;; mret (Some resp.2) else mret None)
    (mret None).

(** The [for attempt in range(1, RETRY_ATTEMPTS + 1)] loop of
    [retry_get], over the attempts still to make. *)
Fixpoint retry_attempts (attempts : list nat) (url : string)
  : io (option html) :=
  match attempts with
  | [] => mret None
  | attempt :: later =>
      r ← attempt_block url;
      match r with
      | Some soup => mret (Some soup)
      | None =>
          (if (attempt <? RETRY_ATTEMPTS)%nat then sleep else mret tt);;
          retry_attempts later url
      end
  end.

(** scraper.py, [retry_get] (lines 50-67): the page of a response with
    status 200, or [None] after RETRY_ATTEMPTS attempts. *)
Definition retry_get (url : string) : io (option html) :=
  retry_attempts (seq 1 RETRY_ATTEMPTS) url.

(** scraper.py, [load_checkpoint] (lines 70-77): the parsed file when it
    exists and [json.load] goes through, the empty dict otherwise. *)
Definition load_checkpoint : io json :=
  f ← IO.get_checkpoint;
  match f with
  | CkAbsent => mret (JObj ∅)
  | _ =>
      IO.try_except
        (match f with
         | CkJson v => mret v
         | CkInvalid => IO.lift (Raise ValueError)
         | _ => IO.lift (Raise OSError)
         end)
        (λ _, mret (JObj ∅))
  end.

(** scraper.py, [save_checkpoint] (lines 80-85): a failure is logged and
    nothing is raised. *)
Definition save_checkpoint (data : json) : io unit :=
  n ← IO.tick_saves;
  match save_faults env n with
  | SaveOk => IO.set_checkpoint (CkJson data);; IO.emit (ESave data true)
  | SaveOpenFails => IO.emit (ESave data false)
  | SaveWriteFails => IO.set_checkpoint CkInvalid;; IO.emit (ESave data false)
  end.

(** scraper.py, [ensure_csv_header] (lines 88-92).  Nothing guards the
    [open] and the write: the exception of a disk that refuses them goes
    to the caller. *)
Definition ensure_csv_header (names : list string) : io unit :=
  f ← IO.get_csv;
  match f with
  | None =>
      match header_fault env with
      | SaveOk => IO.set_csv (Some [names])
      | SaveOpenFails => IO.lift (Raise OSError)
      | SaveWriteFails => IO.set_csv (Some []);; IO.lift (Raise OSError)
      end
  | Some _ => mret tt
  end.

(** The loop over the lines of the table in [extract_number_of_reviews]. *)
Fixpoint reviews_in_rows (rows : list table_row) : Z :=
  match rows with
  | [] => -1
  | row :: later =>
      match th row, td row with
      | Some th_text, Some text =>
          let key := Text.lower th_text in
          if Text.contains "review" key
          then default (-1) (int_of_text env text)
          else reviews_in_rows later
      | _, _ => reviews_in_rows later
      end
  end.

(** scraper.py, [extract_number_of_reviews] (lines 123-143) *)
Definition extract_number_of_reviews (soup : html) : Z :=
  match info_table soup with
  | Some rows => reviews_in_rows rows
  | None => -1
  end.

(** [urljoin(base, href)] where [href] may be [None]: the base comes back
    then, unparsed. *)
Definition py_urljoin (base : string) (href : option string) : result string :=
  match href with
  | Some h => urljoin env base h
  | None => Ok base
  end.

(** The dict [row] as [DictWriter] sees it: every value through [str]. *)
Definition item_row (it : item) : Csv.row :=
  {| Csv.named :=
       {[ "title" := Some (title it);
          "price" := Some (float_repr env (price it));
          "rating" := Some (int_repr (rating it));
          "number_of_reviews" := Some (int_repr (number_of_reviews it));
          "product_page_url" := Some (product_page_url it);
          "scraped_at" := Some (scraped_at it) ]};
     Csv.rest := None |}.

(** The body of [for art in product_articles]: the rows it appends to
    [rows_to_write], none when the [except] branch is taken. *)
Definition scrape_article (next_url : string) (art : article)
  : io (list item) :=
  IO.try_except
    (a ← IO.lift (match art_link art with
                  | Some a => Ok a
                  | None => Raise AttributeError
                  end);
     let title :=
       match a_title a with
       | Some t => if Text.truthy t then t else a_text a
       | None => a_text a
       end in
     let rel_link := a_href a in
     product_url ← IO.lift (py_urljoin next_url rel_link);
     price ← IO.lift (match art_price art with
                      | Some text => Scraper.parse_price text
                      | None => Ok 0%Q
                      end);
     let rating :=
       match art_rating art with
       | Some classes => Scraper.parse_rating (capitalize env) classes
       | None => 0
       end in
     prod_resp ← retry_get product_url;
     let num_reviews :=
       match prod_resp with
       | Some prod_soup => extract_number_of_reviews prod_soup
       | None => -1
       end in
     sleep;;
     n ← IO.get_requests;
     let scraped_at := (utcnow env n ++ "Z")%string in
     mret [ {| title := title; price := price; rating := rating;
               number_of_reviews := num_reviews;
               product_page_url := product_url;
               scraped_at := scraped_at |} ])
    (λ _, mret []).

Fixpoint scrape_articles (next_url : string) (arts : list article)
  : io (list item) :=
  match arts with
  | [] => mret []
  | art :: later =>
      rows ← scrape_article next_url art;
      more ← scrape_articles next_url later;
      mret (rows ++ more)
  end.

(** The [try / except / else] block that appends a page to products.csv. *)
Definition append_page (rows_to_write : list item) (page_count : nat)
  : io unit :=
  n ← IO.tick_appends;
  f ← IO.get_csv;
  let old := default [] f in
  let '(lines, accepted) := Csv.writerows fieldnames (item_row <$> rows_to_write) in
  match append_fault env n with
  | Some k =>
      IO.set_csv (Some (old ++ take k lines));;
      IO.emit (EAppend rows_to_write false)
  | None =>
      IO.set_csv (Some (old ++ lines));;
      if accepted
      then IO.emit (EAppend rows_to_write true);;
           IO.emit (EPrint (length rows_to_write) page_count)
      else IO.emit (EAppend rows_to_write false)
  end.

Definition checkpoint_of (next_url : json) : json :=
  JObj {[ "next_url" := next_url ]}.

(** One turn of [while next_url]; the result is the new [next_url],
    [None] when the loop ends ([break], or the last page).  The [urljoin]
    of the next link stands outside every [try]. *)
Definition crawl_page (page_count : nat) (next_url : string)
  : io (option string) :=
  resp ← retry_get next_url;
  match resp with
  | None => mret None
  | Some soup =>
      rows_to_write ← scrape_articles next_url (articles soup);
      append_page rows_to_write page_count;;
      match next_link soup with
      | Some href =>
          next_url' ← IO.lift (py_urljoin next_url href);
          save_checkpoint (checkpoint_of (JStr next_url'));;
          mret (Some next_url')
      | None =>
          save_checkpoint (checkpoint_of JNull);;
          mret None
      end
  end.

(** [while next_url: ...].  The result tells whether the loop ended
    within [fuel] turns. *)
Fixpoint crawl_loop (fuel : nat) (page_count : nat) (next_url : string)
  : io bool :=
  if negb (Text.truthy next_url) then mret true
  else
    match fuel with
    | O => mret false
    | S fuel' =>
        let page_count := S page_count in
        next ← crawl_page page_count next_url;
        match next with
        | Some next_url' => crawl_loop fuel' page_count next_url'
        | None => mret true
        end
    end.

(** Reading products.csv to its end, as the first half of
    [deduplicate_csv] does: [open] raises when the file is not there or
    cannot be opened, the decoder when its bytes are not UTF-8, the reader
    when a cell is too long. *)
Definition read_csv : io (list Csv.row) :=
  f ← IO.get_csv;
  match f with
  | None => IO.lift (Raise OSError)
  | Some t => IO.lift (if read_fault env t then Raise OSError else Csv.read t)
  end.

(** Writing products.csv anew, as the second half of [deduplicate_csv]
    does: [open] raises on a disk that refuses it, a write raises when the
    disk takes no more. *)
Definition write_csv (t : Csv.table) : io unit :=
  match rewrite_fault env with
  | RewriteOk => IO.set_csv (Some t)
  | RewriteOpenFails => IO.lift (Raise OSError)
  | RewriteStops k => IO.set_csv (Some (take k t));; IO.lift (Raise OSError)
  end.

(** scraper.py, [deduplicate_csv] (lines 257-275).  The file is opened for
    writing once it has been read to its end: when the reading raises, the
    [except] branch logs it and the file is left as it was.  The same
    branch takes what the writing raises. *)
Definition deduplicate_csv (key_field : string) (names : list string)
  : io unit :=
  IO.emit EDedup;;
  IO.try_except
    (rows ← read_csv;
     write_csv (rewritten key_field names rows))
    (λ _, mret tt).

(** [checkpoint.get("next_url") or BASE_URL] *)
Definition start_url (checkpoint : json) : result json :=
  Py.bind (json_get checkpoint "next_url") (λ v, Ok (py_or v (JStr BASE_URL))).

(** [scrape()].  A start value that is not a text is turned into one by
    the HTTP client and then refused (it has no scheme) with a
    [RequestException] at every attempt, before anything is sent. *)
Definition scrape (fuel : nat) : io bool :=
  ensure_csv_header fieldnames;;
  checkpoint ← load_checkpoint;
  start ← IO.lift (start_url checkpoint);
  ended ← match start with
          | JStr next_url => crawl_loop fuel 0 next_url
          | _ => sleep;; sleep;; mret true
          end;
  if ended : bool
  then deduplicate_csv "title" fieldnames;; mret true
  else mret false.

End Crawler.

(** ** The one-shot scripts: [scrape_books] (scraper.py, lines 290-366)
    and [scrape_homepage] (books_scraper.py, lines 47-86)

    Both use [requests.get] without a session and write a file of their
    own, so they are functions of the network oracle and of that file.  A
    fresh process is assumed: the first request is request 0.  What they
    print is left out. *)

(** How a script ends. *)
Inductive ending : Type :=
  | Returned                  (* the function returns *)
  | Crashed                   (* an exception escapes the function *)
  | Exited (code : Z)         (* sys.exit(code) *)
  | Unfinished.               (* the bound on the turns of a loop was reached *)

Section OneShot.

Variable env : Env.

(** [response.raise_for_status()] raises [HTTPError], a
    [RequestException], for the statuses 400 to 599. *)
Definition raises_for_status (code : Z) : bool :=
  (400 <=? code) && (code <? 600).

(** [requests.get] followed by [raise_for_status]: the page, or [None]
    when a [RequestException] is raised. *)
Definition get_page (n : nat) (url : string) : option html :=
  match net env n url with
  | Response code soup => if raises_for_status code then None else Some soup
  | NetworkError => None
  end.

(** [base_url] for the first page, [f"{base_url}/page-{page_num}/"] for
    the others. *)
Definition page_url (base_url : string) (page_num : nat) : string :=
  if (page_num =? 1)%nat then base_url
  else (base_url ++ "/page-" ++ int_repr (Z.of_nat page_num) ++ "/")%string.

(** The dict [scrape_books] appends for a container: its title attribute
    and the text of its price, stripped.  [None] when one of the
    expressions raises: no [h3] or no [a] in it, no title attribute, no
    price tag.  None of these exceptions is a [RequestException]. *)
Definition book_of (container : article) : option (string * string) :=
  a ← art_link container;
  title ← a_title a;
  price ← art_price container;
  Some (title, Text.strip price).

(** The [for container in book_containers] loop. *)
Fixpoint books_of (containers : list article) : option (list (string * string)) :=
  match containers with
  | [] => Some []
  | container :: later =>
      book ← book_of container;
      more ← books_of later;
      Some (book :: more)
  end.

(** The [while True] loop of [scrape_books]: the books gathered when it
    breaks. *)
Fixpoint books_loop (fuel : nat) (base_url : string) (page_num : nat)
    (books : list (string * string)) : ending * list (string * string) :=
  match fuel with
  | O => (Unfinished, books)
  | S fuel' =>
      match get_page (page_num - 1) (page_url base_url page_num) with
      | None => (Returned, books)
      | Some soup =>
          match articles soup with
          | [] => (Returned, books)
          | containers =>
              match books_of containers with
              | None => (Crashed, books)
              | Some found =>
                  books_loop fuel' base_url (S page_num) (books ++ found)
              end
          end
      end
  end.

(** A dict of [books], as [DictWriter] sees it. *)
Definition book_row (book : string * string) : Csv.row :=
  {| Csv.named := {[ "title" := Some book.1; "price" := Some book.2 ]};
     Csv.rest := None |}.

(** The [if books: ...] block that ends [scrape_books].  The file is
    opened for writing and the header and the rows are written; with
    [write_fault = Some k] an [IOError] comes after [k] lines have reached
    the file, and it is caught. *)
Definition save_books (write_fault : option nat)
    (books : list (string * string)) (file : option Csv.table)
  : option Csv.table :=
  match books with
  | [] => file
  | _ =>
      let lines := ["title"; "price"]
                   :: (Csv.writerows ["title"; "price"] (book_row <$> books)).1 in
      match write_fault with
      | None => Some lines
      | Some k => Some (take k lines)
      end
  end.

(** [scrape_books(base_url, output_file)]: how it ends, and what the
    output file holds then. *)
Definition scrape_books (fuel : nat) (base_url : string)
    (write_fault : option nat) (file : option Csv.table)
  : ending * option Csv.table :=
  match books_loop fuel base_url 1 [] with
  | (Returned, books) => (Returned, save_books write_fault books file)
  | (other, _) => (other, file)
  end.

(** The dict [scrape_homepage] appends for an article; [None] when
    [art.find("h3").find("a")] or [a.get] raises [AttributeError]. *)
Definition homepage_row (art : article) : option (string * Q * Z) :=
  a ← art_link art;
  let title :=
    match a_title a with
    | Some t => if Text.truthy t then t else a_text a
    | None => a_text a
    end in
  let price_text :=
    match art_price art with
    | Some text => Text.strip text
    | None => ""
    end in
  let rating :=
    match art_rating art with
    | Some classes => BooksScraper.parse_rating (capitalize env) classes
    | None => 0
    end in
  match BooksScraper.parse_price price_text with
  | Ok price => Some (title, price, rating)
  | Raise _ => None
  end.

Fixpoint homepage_rows (arts : list article) : option (list (string * Q * Z)) :=
  match arts with
  | [] => Some []
  | art :: later =>
      row ← homepage_row art;
      more ← homepage_rows later;
      Some (row :: more)
  end.

(** The line [DataFrame.to_csv] writes for a row. *)
Definition homepage_line (row : string * Q * Z) : Csv.line :=
  [row.1.1; float_repr env row.1.2; int_repr row.2].

(** [scrape_homepage(url)]: how it ends, and what books.csv holds then.
    A failure of the disk in [to_csv] is not modelled. *)
Definition scrape_homepage (url : string) (file : option Csv.table)
  : ending * option Csv.table :=
  match get_page 0 url with
  | None => (Exited 1, file)
  | Some soup =>
      match homepage_rows (articles soup) with
      | None => (Crashed, file)
      | Some rows =>
          (Returned,
           Some (["title"; "price"; "rating"] :: (homepage_line <$> rows)))
      end
  end.

End OneShot.

(** ** Vocabulary of the properties *)

(** a character [re.sub] keeps *)
Definition numeric_char (c : ascii) : bool := Text.is_digit c || Text.is_dot c.

(** A text without digits and dots: [re.sub] leaves nothing of it. *)
Definition junk (s : string) : Prop :=
  Text.all (λ c, negb (numeric_char c)) s = true.

(** [capitalize] does on the texts of ASCII what [str.capitalize] does on
    them. *)
Definition capitalizes_ascii (capitalize : string → string) : Prop :=
  ∀ s, Text.is_ascii s = true → capitalize s = Text.capitalize_ascii s.

(** A class matches a label of [RATING_MAP] when it is the label, as it
    stands or once capitalized, with or without the white space around
    it. *)
Definition recognized (capitalize : string → string) (cls : string) : Prop :=
  ∃ label, is_Some (RATING_MAP !! label)
    ∧ (cls = label ∨ Text.strip cls = label
       ∨ capitalize cls = label ∨ capitalize (Text.strip cls) = label).

(** On ASCII text that is: the class is the label up to letter case, with
    or without white space around it. *)
Definition recognized_ascii (cls : string) : Prop :=
  ∃ label, is_Some (RATING_MAP !! label)
    ∧ (Text.lower cls = Text.lower label
       ∨ Text.lower (Text.strip cls) = Text.lower label).

(** The value of the key field in a line read under the given header:
    [row.get(key_field)] for the row [DictReader] makes of the line. *)
Definition key_of (key_field : string) (names : list string) (l : Csv.line)
  : option string :=
  Csv.get key_field (Csv.read_row names l).

(** A key that [deduplicate_csv] takes: present and not empty. *)
Definition usable_key (o : option string) : Prop :=
  ∃ k, o = Some k ∧ k ≠ "".

(** A line that gives one cell to each name, equal names getting equal
    cells. *)
Definition uniform (names : list string) (l : Csv.line) : Prop :=
  ∃ g : string → string, l = g <$> names.

(** Line [i] of [lines] is [l], its key is usable and no line above it has
    that key. *)
Definition first_at (key_field : string) (names : list string)
    (lines : list Csv.line) (i : nat) (l : Csv.line) : Prop :=
  lines !! i = Some l
  ∧ usable_key (key_of key_field names l)
  ∧ ∀ j l', (j < i)%nat → lines !! j = Some l' →
            key_of key_field names l' ≠ key_of key_field names l.

(** [deduplicate_csv] can read the file to its end. *)
Definition readable (env : Env) (t : Csv.table) : Prop :=
  read_fault env t = false ∧ Csv.oversized t = false.

(** The disk takes the rewriting of products.csv. *)
Definition writable (env : Env) : Prop := rewrite_fault env = RewriteOk.

(** What [deduplicate_csv] leaves of a file that is there: the file as it
    was when it cannot be read or opened for writing, the rewritten file
    otherwise, or as many lines of it as the disk took. *)
Definition deduped (env : Env) (key_field : string) (names : list string)
    (t : Csv.table) : Csv.table :=
  if read_fault env t || Csv.oversized t then t
  else
    match rewrite_fault env with
    | RewriteOk => dedup_table key_field names t
    | RewriteOpenFails => t
    | RewriteStops k => take k (dedup_table key_field names t)
    end.

(** products.csv is there, or it can be created with its header. *)
Definition header_ready (env : Env) (st : State) : Prop :=
  csv st ≠ None ∨ header_fault env = SaveOk.

(** Lines as a deduplication leaves them. *)
Definition deduplicated (key_field : string) (names : list string)
    (kept : list Csv.line) : Prop :=
  Forall (uniform names) kept
  ∧ Forall (λ l, usable_key (key_of key_field names l)) kept
  ∧ NoDup (key_of key_field names <$> kept).

(** [l] stands in [lines] at a place before which no line has its key. *)
Definition first_seen (key_field : string) (names : list string)
    (lines : list Csv.line) (l : Csv.line) : Prop :=
  ∃ before after,
    lines = (before ++ l :: after)
    ∧ ∀ l', l' ∈ before → key_of key_field names l' ≠ key_of key_field names l.

(** The lines kept when reading from the left, [seen] being the keys met
    so far. *)
Fixpoint kept_from (key_field : string) (names : list string)
    (seen : list string) (lines : list Csv.line) : list Csv.line :=
  match lines with
  | [] => []
  | l :: later =>
      match key_of key_field names l with
      | Some k =>
          if Text.truthy k && negb (bool_decide (k ∈ seen))
          then l :: kept_from key_field names (seen ++ [k]) later
          else kept_from key_field names seen later
      | None => kept_from key_field names seen later
      end
  end.

(** An attempt the specification counts as failed: no answer, or a status
    outside 200..299. *)
Definition non_success (o : http_outcome) : Prop :=
  match o with
  | Response code _ => ¬ (200 ≤ code ≤ 299)
  | NetworkError => True
  end.

(** The state once a GET for [url] has been sent, and once the program has
    slept. *)
Definition sent (url : string) (st : State) : State :=
  {| requests := S (requests st); appends := appends st; saves := saves st;
     csv := csv st; checkpoint := checkpoint st;
     trace := (trace st ++ [EGet url]) |}.

Definition slept (st : State) : State :=
  {| requests := requests st; appends := appends st; saves := saves st;
     csv := csv st; checkpoint := checkpoint st;
     trace := (trace st ++ [ESleep]) |}.

Definition is_fetch_event (e : event) : Prop :=
  match e with
  | EGet _ | ESleep => True
  | _ => False
  end.

(** Between two states only requests and pauses happened: the files are
    untouched and the trace grew by [EGet] and [ESleep] events. *)
Definition fetch_only (st st' : State) : Prop :=
  appends st' = appends st ∧ saves st' = saves st
  ∧ csv st' = csv st ∧ checkpoint st' = checkpoint st
  ∧ ∃ evs, trace st' = (trace st ++ evs) ∧ Forall is_fetch_event evs.

(** The line [DictWriter] writes for an item. *)
Definition item_line (env : Env) (it : item) : Csv.line :=
  [title it; float_repr env (price it); int_repr (rating it);
   int_repr (number_of_reviews it); product_page_url it; scraped_at it].

(** What [scrape] does once its start is a text: the crawl from that URL,
    then the deduplication. *)
Definition scrape_from (env : Env) (fuel : nat) (next_url : string) : io bool :=
  ensure_csv_header env fieldnames;;
  ended ← crawl_loop env fuel 0 next_url;
  if ended : bool
  then deduplicate_csv env "title" fieldnames;; mret true
  else mret false.

(** The value [crawl_page] hands to [save_checkpoint] for a page, or the
    exception [urljoin] raises on the next link. *)
Definition next_cursor (env : Env) (next_url : string) (soup : html)
  : result json :=
  match next_link soup with
  | Some href =>
      match py_urljoin env next_url href with
      | Ok next_url' => Ok (JStr next_url')
      | Raise e => Raise e
      end
  | None => Ok JNull
  end.

(** The URL a cursor names, if it names one. *)
Definition cursor_url (cursor : json) : option string :=
  match cursor with
  | JStr next_url => Some next_url
  | _ => None
  end.

(** The shape of what a crawl adds to the trace: requests and pauses, and
    for each page an append, reported when it went through, directly
    followed by the save of the checkpoint, or by nothing of the page when
    the next link made [urljoin] raise. *)
Inductive crawl_trace : list event → Prop :=
  | crawl_trace_nil : crawl_trace []
  | crawl_trace_fetch e evs :
      is_fetch_event e → crawl_trace evs → crawl_trace (e :: evs)
  | crawl_trace_page rows saved page data ok evs :
      crawl_trace evs →
      crawl_trace (EAppend rows true :: EPrint saved page
                   :: ESave data ok :: evs)
  | crawl_trace_page_failed rows data ok evs :
      crawl_trace evs →
      crawl_trace (EAppend rows false :: ESave data ok :: evs)
  | crawl_trace_unsaved rows saved page evs :
      crawl_trace evs →
      crawl_trace (EAppend rows true :: EPrint saved page :: evs)
  | crawl_trace_unsaved_failed rows evs :
      crawl_trace evs →
      crawl_trace (EAppend rows false :: evs).

(** What a crawl may do to the state: extend the trace in the shape of
    [crawl_trace], and add lines at the end of products.csv. *)
Definition crawl_effect (st st' : State) : Prop :=
  (∃ evs, trace st' = trace st ++ evs ∧ crawl_trace evs)
  ∧ ∀ t, csv st = Some t → ∃ new, csv st' = Some (t ++ new).

(** The item an article gives when its detail page cannot be fetched. *)
Definition degraded_item (env : Env) (next_url : string) (art : article)
    (a : anchor) (it : item) : Prop :=
  number_of_reviews it = -1
  ∧ title it = match a_title a with
               | Some t => if Text.truthy t then t else a_text a
               | None => a_text a
               end
  ∧ Ok (price it) = match art_price art with
                    | Some text => Scraper.parse_price text
                    | None => Ok 0%Q
                    end
  ∧ rating it = match art_rating art with
                | Some classes => Scraper.parse_rating (capitalize env) classes
                | None => 0
                end
  ∧ Ok (product_page_url it) = py_urljoin env next_url (a_href a).

(** *** Small worlds for the examples *)

Definition blank_page : html :=
  {| articles := []; next_link := None; info_table := None |}.

Definition fresh : State :=
  {| requests := 0; appends := 0; saves := 0; csv := None;
     checkpoint := CkAbsent; trace := [] |}.

(** A state where products.csv holds the given lines. *)
Definition with_csv (t : Csv.table) : State :=
  {| requests := 0; appends := 0; saves := 0; csv := Some t;
     checkpoint := CkAbsent; trace := [] |}.

(** A server that answers every request with the same status. *)
Definition env_status (code : Z) : Env :=
  {| net := λ _ _, Response code blank_page;
     utcnow := λ _, "2024-01-01T00:00:00";
     append_fault := λ _, None;
     save_faults := λ _, SaveOk;
     header_fault := SaveOk;
     read_fault := λ _, false;
     rewrite_fault := RewriteOk;
     urljoin := λ base href, Ok href;
     capitalize := Text.capitalize_ascii;
     float_repr := λ _, "0.0";
     int_of_text := λ _, None |}.

(** What [load_checkpoint] returns for a state of checkpoint.json. *)
Definition loaded (f : checkpoint_file) : json :=
  match f with
  | CkJson v => v
  | _ => JObj ∅
  end.

(** A checkpoint that names no page: no file, a file that cannot be read
    or parsed, or a record whose next_url is absent, null or empty. *)
Definition names_no_page (f : checkpoint_file) : Prop :=
  f = CkAbsent ∨ f = CkUnreadable ∨ f = CkInvalid
  ∨ ∃ m : gmap string json,
      f = CkJson (JObj m)
      ∧ (m !! "next_url" = None ∨ m !! "next_url" = Some JNull
         ∨ m !! "next_url" = Some (JStr "")).

(** A shop of two pages.  The first book has a detail page, the second has
    none (the server answers 404). *)
Definition book (name href : string) : article :=
  {| art_link := Some {| a_title := Some name; a_text := name;
                         a_href := Some href |};
     art_price := Some "£51.77";
     art_rating := Some ["star-rating"; "Three"] |}.

Definition shop_home : html :=
  {| articles := [book "A Light in the Attic" "a.html"];
     next_link := Some (Some "page-2.html");
     info_table := None |}.

Definition shop_last : html :=
  {| articles := [book "Tipping the Velvet" "b.html"];
     next_link := None;
     info_table := None |}.

Definition shop_detail : html :=
  {| articles := [];
     next_link := None;
     info_table := Some [ {| th := Some "UPC"; td := Some "a897fe39b1053632" |};
                          {| th := Some "Number of reviews"; td := Some "3" |} ] |}.

Definition shop_net (n : nat) (url : string) : http_outcome :=
  if String.eqb url BASE_URL then Response 200 shop_home
  else if String.eqb url "page-2.html" then Response 200 shop_last
  else if String.eqb url "a.html" then Response 200 shop_detail
  else Response 404 blank_page.

Definition env_shop : Env :=
  {| net := shop_net;
     utcnow := λ _, "2024-01-01T00:00:00";
     append_fault := λ _, None;
     save_faults := λ _, SaveOk;
     header_fault := SaveOk;
     read_fault := λ _, false;
     rewrite_fault := RewriteOk;
     urljoin := λ base href, Ok href;
     capitalize := Text.capitalize_ascii;
     float_repr := λ _, "51.77";
     int_of_text := λ text, if String.eqb text "3" then Some 3 else None |}.

(** The shop behind a server that fails once: it answers 500 to the first
    request and the home page to the others. *)
Definition env_flaky : Env :=
  {| net := λ n _, if (n =? 0)%nat then Response 500 blank_page
                   else Response 200 shop_home;
     utcnow := λ _, "2024-01-01T00:00:00";
     append_fault := λ _, None;
     save_faults := λ _, SaveOk;
     header_fault := SaveOk;
     read_fault := λ _, false;
     rewrite_fault := RewriteOk;
     urljoin := λ base href, Ok href;
     capitalize := Text.capitalize_ascii;
     float_repr := λ _, "51.77";
     int_of_text := λ text, if String.eqb text "3" then Some 3 else None |}.

(** The same shop, on a disk where nothing can be appended. *)
Definition env_disk_full : Env :=
  {| net := shop_net;
     utcnow := λ _, "2024-01-01T00:00:00";
     append_fault := λ _, Some O;
     save_faults := λ _, SaveOk;
     header_fault := SaveOk;
     read_fault := λ _, false;
     rewrite_fault := RewriteOk;
     urljoin := λ base href, Ok href;
     capitalize := Text.capitalize_ascii;
     float_repr := λ _, "51.77";
     int_of_text := λ text, if String.eqb text "3" then Some 3 else None |}.

Definition first_book : item :=
  {| title := "A Light in the Attic"; price := 51.77%Q; rating := 3;
     number_of_reviews := 3; product_page_url := "a.html";
     scraped_at := "2024-01-01T00:00:00Z" |}.

Definition second_book : item :=
  {| title := "Tipping the Velvet"; price := 51.77%Q; rating := 3;
     number_of_reviews := -1; product_page_url := "b.html";
     scraped_at := "2024-01-01T00:00:00Z" |}.

(** The no-break space U+00A0, in UTF-8. *)
Definition nbsp : string :=
  String (ascii_of_nat 194) (String (ascii_of_nat 160) EmptyString).

(** A text of 131073 characters, one more than the field limit of the
    [csv] reader. *)
Definition long_text : string := Pos.iter (String "x") "" 131073%positive.

(** *** Vocabulary of the further properties *)

(** A line of the product information table that
    [extract_number_of_reviews] takes for the number of reviews: it has
    both cells and "review" in its header, whatever the case. *)
Definition review_row (row : table_row) : bool :=
  match th row, td row with
  | Some header, Some _ => Text.contains "review" (Text.lower header)
  | _, _ => false
  end.

(** [k] requests for a URL, each followed by a pause. *)
Definition polls (url : string) (k : nat) : list event :=
  concat (replicate k [EGet url; ESleep]).

(** No answer with status 200 among the next [k] answers for [url]. *)
Definition no_200_in (env : Env) (url : string) (from k : nat) : Prop :=
  ∀ j soup, (j < k)%nat → net env (from + j) url ≠ Response 200 soup.



Definition is_get (e : event) : bool :=
  match e with
  | EGet _ => true
  | _ => false
  end.

(** No request directly follows another one. *)
Fixpoint paced (evs : list event) : bool :=
  match evs with
  | [] => true
  | e1 :: rest =>
      match rest with
      | e2 :: _ => negb (is_get e1 && is_get e2)
      | [] => true
      end && paced rest
  end.

Fixpoint ends_with_get (evs : list event) : bool :=
  match evs with
  | [] => false
  | e :: rest =>
      match rest with
      | [] => is_get e
      | _ => ends_with_get rest
      end
  end.

(** Paced, and the last thing done was not a request. *)
Definition rested (evs : list event) : Prop :=
  paced evs = true ∧ ends_with_get evs = false.



(** What page [p] gives [scrape_books] when it is fetched, has containers
    and every container is well formed. *)
Definition page_yield (env : Env) (base_url : string) (p : nat)
  : option (list (string * string)) :=
  soup ← get_page env (p - 1) (page_url base_url p);
  match articles soup with
  | [] => None
  | containers => books_of containers
  end.

(** Page [p] makes the loop of [scrape_books] break: the request fails, or
    the page has no container. *)
Definition page_stops (env : Env) (base_url : string) (p : nat) : Prop :=
  get_page env (p - 1) (page_url base_url p) = None
  ∨ ∃ soup, get_page env (p - 1) (page_url base_url p) = Some soup
            ∧ articles soup = [].

(** Page [p] has a container that makes [scrape_books] raise. *)
Definition page_crashes (env : Env) (base_url : string) (p : nat) : Prop :=
  ∃ soup, get_page env (p - 1) (page_url base_url p) = Some soup
          ∧ articles soup ≠ [] ∧ books_of (articles soup) = None.

(** The line [DictWriter] writes for a book. *)
Definition book_line (book : string * string) : Csv.line := [book.1; book.2].

(** * Properties *)

(** ** Parsing of prices *)

Lemma ascii_all (P : ascii → Prop) :
  (∀ b0 b1 b2 b3 b4 b5 b6 b7, P (Ascii b0 b1 b2 b3 b4 b5 b6 b7)) → ∀ c, P c.
Proof. intros H [b0 b1 b2 b3 b4 b5 b6 b7]. apply H. Qed.

Ltac each_ascii c :=
  revert c; apply ascii_all;
  intros [] [] [] [] [] [] [] []; vm_compute; try reflexivity; try discriminate.

Lemma strip_non_numeric_all s :
  Text.all numeric_char (strip_non_numeric s) = true.
Proof.
  induction s as [|c s IH]; [reflexivity|].
  unfold strip_non_numeric in *. simpl.
  destruct (Text.is_digit c || Text.is_dot c) eqn:E; [|exact IH].
  simpl. unfold numeric_char at 1. rewrite E. exact IH.
Qed.

Lemma strip_non_numeric_count s c :
  Text.count (Ascii.eqb c) (strip_non_numeric s)
  = if numeric_char c then Text.count (Ascii.eqb c) s else O.
Proof.
  induction s as [|d s IH]; simpl.
  - by destruct (numeric_char c).
  - unfold strip_non_numeric in *. simpl.
    destruct (Text.is_digit d || Text.is_dot d) eqn:E; simpl; rewrite IH.
    + destruct (Ascii.eqb_spec c d) as [->|]; [|by destruct (numeric_char c)].
      unfold numeric_char. by rewrite E.
    + destruct (Ascii.eqb_spec c d) as [->|]; [|by destruct (numeric_char c)].
      unfold numeric_char. by rewrite E.
Qed.

Lemma strip_non_numeric_id s :
  Text.all numeric_char s = true → strip_non_numeric s = s.
Proof.
  induction s as [|c s IH]; [done|]. simpl.
  intros [Hc Hs]%andb_prop. unfold strip_non_numeric in *. simpl.
  unfold numeric_char in Hc. rewrite Hc. f_equal. by apply IH.
Qed.

Lemma float_raises_value_error s e : Float.float s = Raise e → e = ValueError.
Proof.
  unfold Float.float. destruct (Float.split_dot s) as [i f].
  case_match; [discriminate|]. by intros [= <-].
Qed.


(** The two scripts parse a price to the same value, and neither raises. *)
Lemma parse_price_value s :
  let v := match Float.float (strip_non_numeric s) with
           | Ok v => v
           | Raise _ => 0%Q
           end in
  Scraper.parse_price s = Ok v ∧ BooksScraper.parse_price s = Ok v.
Proof.
  unfold Scraper.parse_price, BooksScraper.parse_price.
  destruct (strip_non_numeric s) as [|c cleaned] eqn:E; [done|].
  simpl Text.truthy. cbv iota.
  destruct (Float.float (String c cleaned)) as [v|e] eqn:F; simpl; [done|].
  by rewrite (float_raises_value_error _ _ F).
Qed.

(** C7.  For every input text, the price parsers of both scripts drop every
    character that is not a digit or the decimal point, convert what is
    left, and give 0.0 when the conversion fails; they never raise.  The
    texts of the specification parse to 51.77, 51.77 and 0.0. *)
Theorem price_parsing :
  (∀ s : string,
     let cleaned := strip_non_numeric s in
     Text.all numeric_char cleaned = true
     ∧ (∀ c, Text.count (Ascii.eqb c) cleaned
             = if numeric_char c then Text.count (Ascii.eqb c) s else O)
     ∧ ∃ v : Q,
         Scraper.parse_price s = Ok v
         ∧ BooksScraper.parse_price s = Ok v
         ∧ (Float.float cleaned = Ok v
            ∨ (Float.float cleaned = Raise ValueError ∧ v = 0%Q)))
  ∧ Scraper.parse_price "£51.77" = Ok 51.77%Q
  ∧ BooksScraper.parse_price "£51.77" = Ok 51.77%Q
  ∧ Scraper.parse_price "Â£51.77" = Ok 51.77%Q
  ∧ BooksScraper.parse_price "Â£51.77" = Ok 51.77%Q
  ∧ Scraper.parse_price "" = Ok 0%Q
  ∧ BooksScraper.parse_price "" = Ok 0%Q
  ∧ Scraper.parse_price "n/a" = Ok 0%Q
  ∧ BooksScraper.parse_price "n/a" = Ok 0%Q
  ∧ Scraper.parse_price "1.2.3" = Ok 0%Q
  ∧ BooksScraper.parse_price "1.2.3" = Ok 0%Q.
Proof.
  split; [|by vm_compute].
  intros s cleaned. split; [apply strip_non_numeric_all|].
  split; [apply strip_non_numeric_count|].
  destruct (parse_price_value s) as [HS HB]. fold cleaned in HS, HB.
  destruct (Float.float cleaned) as [v|e] eqn:F.
  - exists v. auto.
  - exists 0%Q. rewrite (float_raises_value_error _ _ F) in *. auto.
Qed.

(** ** White space *)

Lemma all_app p s1 s2 :
  Text.all p (s1 ++ s2)%string = Text.all p s1 && Text.all p s2.
Proof.
  induction s1 as [|c s1 IH]; [done|]. simpl. by rewrite IH, andb_assoc.
Qed.

Lemma high_not_numeric c : (128 ≤ nat_of_ascii c)%nat → numeric_char c = false.
Proof.
  intros H. unfold numeric_char, Text.is_digit, Text.is_dot. cbv zeta.
  rewrite (proj2 (Nat.leb_gt (nat_of_ascii c) 57)) by lia.
  rewrite (proj2 (Nat.eqb_neq (nat_of_ascii c) 46)) by lia.
  by rewrite andb_false_r.
Qed.

Lemma space_not_numeric c : Text.is_space c = true → numeric_char c = false.
Proof.
  assert (H : implb (Text.is_space c) (negb (numeric_char c)) = true)
    by each_ascii c.
  intros E. rewrite E in H. simpl in H. by apply negb_true_iff.
Qed.

Ltac split_tests :=
  repeat match goal with
         | H : (_ || _) = true |- _ => apply orb_prop in H as [H|H]
         | H : (_ && _) = true |- _ => apply andb_prop in H as [? ?]
         | H : (_ =? _)%nat = true |- _ => apply Nat.eqb_eq in H
         | H : (_ <=? _)%nat = true |- _ => apply Nat.leb_le in H
         end.

Lemma space2_high a b :
  Text.is_space2 a b = true →
  (128 ≤ nat_of_ascii a)%nat ∧ (128 ≤ nat_of_ascii b)%nat.
Proof. unfold Text.is_space2. intros H. split_tests; lia. Qed.

Lemma space3_high a b c :
  Text.is_space3 a b c = true →
  (128 ≤ nat_of_ascii a)%nat ∧ (128 ≤ nat_of_ascii b)%nat
  ∧ (128 ≤ nat_of_ascii c)%nat.
Proof. unfold Text.is_space3. cbv zeta. intros H. split_tests; lia. Qed.

Lemma space_run_junk r : Text.space_run r = true → junk r.
Proof.
  unfold junk.
  destruct r as [|a [|b [|c [|d r]]]]; simpl; try done.
  - intros H. by rewrite (space_not_numeric _ H).
  - intros [Ha Hb]%space2_high.
    by rewrite !high_not_numeric.
  - intros (Ha & Hb & Hc)%space3_high.
    by rewrite !high_not_numeric.
Qed.

(** [lstrip] takes a run of such characters from the start of the text. *)
Lemma lstrip_suffix s :
  ∃ l, s = (l ++ Text.lstrip s)%string ∧ junk l.
Proof.
  remember (String.length s) as n eqn:Hn. revert s Hn.
  induction n as [n IH] using lt_wf_ind. intros s ->.
  destruct s as [|a s1]; [by exists ""|].
  cbn [Text.lstrip]. destruct (Text.is_space a) eqn:Ea.
  { destruct (IH (String.length s1) ltac:(simpl; lia) s1 eq_refl)
      as (l & E & J).
    exists (String a l). split; [exact (f_equal (String a) E)|].
    unfold junk in *. simpl. by rewrite (space_not_numeric _ Ea). }
  destruct s1 as [|b s2]; [by exists ""|].
  destruct (Text.is_space2 a b) eqn:E2.
  { destruct (IH (String.length s2) ltac:(simpl; lia) s2 eq_refl)
      as (l & E & J).
    exists (String a (String b l)).
    split; [exact (f_equal (λ t, String a (String b t)) E)|].
    apply space2_high in E2 as [Ha Hb].
    unfold junk in *. simpl. by rewrite !high_not_numeric. }
  destruct s2 as [|c s3]; [by exists ""|].
  destruct (Text.is_space3 a b c) eqn:E3; [|by exists ""].
  destruct (IH (String.length s3) ltac:(simpl; lia) s3 eq_refl)
    as (l & E & J).
  exists (String a (String b (String c l))).
  split; [exact (f_equal (λ t, String a (String b (String c t))) E)|].
  apply space3_high in E3 as (Ha & Hb & Hc).
  unfold junk in *. simpl. by rewrite !high_not_numeric.
Qed.

(** [rstrip] takes a run of such characters from its end. *)
Lemma rstrip_prefix s :
  ∃ r, s = (Text.rstrip s ++ r)%string ∧ junk r.
Proof.
  induction s as [|c s (r & E & J)]; [by exists ""|].
  cbn [Text.rstrip]. cbv zeta.
  destruct (Text.space_run (String c (Text.rstrip s))) eqn:R.
  - exists (String c (Text.rstrip s) ++ r)%string. split.
    + exact (f_equal (String c) E).
    + unfold junk. rewrite all_app. apply andb_true_intro.
      split; [by apply space_run_junk|done].
  - exists r. split; [exact (f_equal (String c) E)|done].
Qed.

Lemma strip_non_numeric_app s1 s2 :
  strip_non_numeric (s1 ++ s2)%string
  = (strip_non_numeric s1 ++ strip_non_numeric s2)%string.
Proof.
  induction s1 as [|c s1 IH]; [done|].
  unfold strip_non_numeric in *. simpl.
  destruct (Text.is_digit c || Text.is_dot c); simpl; by rewrite IH.
Qed.

Lemma strip_non_numeric_junk s : junk s → strip_non_numeric s = "".
Proof.
  unfold junk. induction s as [|c s IH]; [done|]. simpl.
  intros [Hc Hj]%andb_prop. unfold strip_non_numeric in *. simpl.
  unfold numeric_char in Hc. apply negb_true_iff in Hc. rewrite Hc.
  by apply IH.
Qed.



(** What [str.strip] leaves of a text of ASCII is a text of ASCII. *)
Lemma strip_ascii s : Text.is_ascii s = true → Text.is_ascii (Text.strip s) = true.
Proof.
  unfold Text.strip, Text.is_ascii. intros H.
  destruct (lstrip_suffix s) as (l & El & _).
  destruct (rstrip_prefix (Text.lstrip s)) as (r & Er & _).
  rewrite El, all_app in H. apply andb_prop in H as [_ H].
  rewrite Er, all_app in H. by apply andb_prop in H as [H _].
Qed.

(** ** Mapping of ratings *)

Lemma lower_upper_char c : Text.lower_char (Text.upper_char c) = Text.lower_char c.
Proof. each_ascii c. Qed.

Lemma upper_lower_char c : Text.upper_char (Text.lower_char c) = Text.upper_char c.
Proof. each_ascii c. Qed.

Lemma lower_lower_char c : Text.lower_char (Text.lower_char c) = Text.lower_char c.
Proof. each_ascii c. Qed.

Lemma lower_lower s : Text.lower (Text.lower s) = Text.lower s.
Proof.
  induction s as [|c s IH]; [done|].
  unfold Text.lower in *. simpl. by rewrite lower_lower_char, IH.
Qed.

Lemma lower_capitalize s :
  Text.lower (Text.capitalize_ascii s) = Text.lower s.
Proof.
  destruct s as [|c s]; [done|].
  unfold Text.capitalize_ascii. change (Text.lower (String ?a ?r))
    with (String (Text.lower_char a) (Text.lower r)).
  by rewrite lower_upper_char, lower_lower.
Qed.

Lemma capitalize_lower s :
  Text.capitalize_ascii (Text.lower s) = Text.capitalize_ascii s.
Proof.
  destruct s as [|c s]; [done|].
  change (Text.lower (String c s))
    with (String (Text.lower_char c) (Text.lower s)).
  unfold Text.capitalize_ascii. by rewrite upper_lower_char, lower_lower.
Qed.

Lemma rating_labels label v :
  RATING_MAP !! label = Some v →
  (label = "One" ∧ v = 1) ∨ (label = "Two" ∧ v = 2)
  ∨ (label = "Three" ∧ v = 3) ∨ (label = "Four" ∧ v = 4)
  ∨ (label = "Five" ∧ v = 5).
Proof.
  unfold RATING_MAP. intros H.
  repeat (apply lookup_insert_Some in H as [[<- <-]|[_ H]]; [tauto|]).
  apply lookup_singleton_Some in H as [<- <-]. tauto.
Qed.

Lemma rating_range label v : RATING_MAP !! label = Some v → 1 ≤ v ≤ 5.
Proof. intros H. destruct (rating_labels _ _ H) as [[_ ->]|[[_ ->]|[[_ ->]|[[_ ->]|[_ ->]]]]]; lia. Qed.

(** A label is a text of ASCII without white space around it, and
    capitalized as it stands. *)
Lemma label_plain label v :
  RATING_MAP !! label = Some v →
  Text.is_ascii label = true ∧ Text.capitalize_ascii label = label
  ∧ Text.strip label = label ∧ label ≠ "star-rating" ∧ label ≠ "".
Proof.
  intros H.
  destruct (rating_labels _ _ H) as [[-> _]|[[-> _]|[[-> _]|[[-> _]|[-> _]]]]];
    by vm_compute.
Qed.

Lemma unrecognized_lookup capitalize cls :
  ¬ recognized capitalize cls →
  RATING_MAP !! Text.strip cls = None
  ∧ RATING_MAP !! capitalize (Text.strip cls) = None
  ∧ RATING_MAP !! capitalize cls = None.
Proof.
  intros H. repeat split; apply eq_None_not_Some; intros Hs; apply H.
  - exists (Text.strip cls). auto.
  - exists (capitalize (Text.strip cls)). auto.
  - exists (capitalize cls). auto.
Qed.

Lemma scraper_rating_skip capitalize cls rest :
  ¬ recognized capitalize cls →
  Scraper.parse_rating capitalize (cls :: rest)
  = Scraper.parse_rating capitalize rest.
Proof.
  intros (H1 & H2 & _)%unrecognized_lookup. simpl.
  destruct (negb (Text.truthy cls)); [done|]. by rewrite H1, H2.
Qed.

Lemma books_rating_skip capitalize cls rest :
  ¬ recognized capitalize cls →
  BooksScraper.parse_rating capitalize (cls :: rest)
  = BooksScraper.parse_rating capitalize rest.
Proof.
  intros (_ & _ & H3)%unrecognized_lookup. simpl.
  destruct (_ && _); [|done]. by rewrite H3.
Qed.

Lemma rating_at_label capitalize label v rest :
  capitalizes_ascii capitalize →
  RATING_MAP !! label = Some v →
  Scraper.parse_rating capitalize (label :: rest) = v
  ∧ BooksScraper.parse_rating capitalize (label :: rest) = v.
Proof.
  intros C H. destruct (label_plain _ _ H) as (A & Ec & Es & N1 & N2).
  destruct label as [|c label']; [done|]. set (label := String c label') in *.
  cbn [Scraper.parse_rating BooksScraper.parse_rating Text.truthy negb andb].
  fold label. rewrite Es, H, (C _ A), Ec, H.
  by rewrite (proj2 (String.eqb_neq _ _) N1).
Qed.

Lemma scraper_rating_range capitalize classes :
  0 ≤ Scraper.parse_rating capitalize classes ≤ 5.
Proof.
  induction classes as [|cls rest IH]; simpl; [lia|].
  destruct (negb _); [done|].
  destruct (RATING_MAP !! Text.strip cls) as [v|] eqn:E1.
  { apply rating_range in E1. lia. }
  destruct (RATING_MAP !! capitalize _) as [v|] eqn:E2; [|done].
  apply rating_range in E2. lia.
Qed.

Lemma books_rating_range capitalize classes :
  0 ≤ BooksScraper.parse_rating capitalize classes ≤ 5.
Proof.
  induction classes as [|cls rest IH]; simpl; [lia|].
  destruct (_ && _); [|done].
  destruct (RATING_MAP !! capitalize cls) as [v|] eqn:E; [|done].
  apply rating_range in E. lia.
Qed.

(** On a text of ASCII, to be capitalized into a label is to be the label
    up to letter case. *)
Lemma capitalize_to_label s label v :
  RATING_MAP !! label = Some v →
  Text.capitalize_ascii s = label ↔ Text.lower s = Text.lower label.
Proof.
  intros H. destruct (label_plain _ _ H) as (_ & Ec & _). split.
  - intros <-. by rewrite lower_capitalize.
  - intros E. by rewrite <- capitalize_lower, E, capitalize_lower.
Qed.

Lemma recognized_on_ascii capitalize cls :
  capitalizes_ascii capitalize → Text.is_ascii cls = true →
  recognized capitalize cls ↔ recognized_ascii cls.
Proof.
  intros C A. pose proof (strip_ascii _ A) as As.
  unfold recognized, recognized_ascii.
  split; intros (label & [v Hv] & H); exists label; (split; [by exists v|]).
  - rewrite (C _ A), (C _ As) in H.
    rewrite !(capitalize_to_label _ _ _ Hv) in H.
    destruct H as [->|[->|[?|?]]]; auto.
  - rewrite (C _ A), (C _ As), !(capitalize_to_label _ _ _ Hv). tauto.
Qed.

(** C8.  For every list of classes, the rating parsers of both scripts give
    the number 1 to 5 of the first class that is one of the labels One to
    Five (a list holding "Three" after unrecognized classes gives 3), and 0
    when no class matches a label.  A class matches a label when [strip]
    and [capitalize], as the parsers apply them, turn it into the label; on
    ASCII text that is to be the label up to letter case and surrounding
    white space. *)
Theorem rating_mapping (capitalize : string → string) (classes : list string) :
  capitalizes_ascii capitalize →
  (Forall (λ cls, ¬ recognized capitalize cls) classes →
     Scraper.parse_rating capitalize classes = 0
     ∧ BooksScraper.parse_rating capitalize classes = 0)
  ∧ (∀ before label v after,
       classes = (before ++ label :: after) →
       RATING_MAP !! label = Some v →
       Forall (λ cls, ¬ recognized capitalize cls) before →
       1 ≤ v ≤ 5
       ∧ Scraper.parse_rating capitalize classes = v
       ∧ BooksScraper.parse_rating capitalize classes = v)
  ∧ 0 ≤ Scraper.parse_rating capitalize classes ≤ 5
  ∧ 0 ≤ BooksScraper.parse_rating capitalize classes ≤ 5
  ∧ (∀ cls, Text.is_ascii cls = true →
       recognized capitalize cls ↔ recognized_ascii cls)
  ∧ RATING_MAP !! "One" = Some 1 ∧ RATING_MAP !! "Two" = Some 2
  ∧ RATING_MAP !! "Three" = Some 3 ∧ RATING_MAP !! "Four" = Some 4
  ∧ RATING_MAP !! "Five" = Some 5 ∧ size RATING_MAP = 5%nat.
Proof.
  intros C.
  split; [|split; [|split; [apply scraper_rating_range|
                    split; [apply books_rating_range|
                    split; [intros cls; by apply recognized_on_ascii
                           |by vm_compute]]]]].
  - induction 1 as [|cls rest Hc _ IH]; [done|].
    by rewrite scraper_rating_skip, books_rating_skip.
  - intros before label v after -> Hv Hb.
    split; [by eapply rating_range|].
    induction Hb as [|cls rest Hc _ IH]; simpl app.
    + by apply rating_at_label.
    + by rewrite scraper_rating_skip, books_rating_skip.
Qed.

(** C8 at the class list of the site, and at a list without a label. *)
Lemma rating_mapping_witness :
  Scraper.parse_rating Text.capitalize_ascii ["star-rating"; "Three"] = 3
  ∧ BooksScraper.parse_rating Text.capitalize_ascii ["star-rating"; "Three"] = 3
  ∧ Scraper.parse_rating Text.capitalize_ascii ["star-rating"; "Six"] = 0
  ∧ BooksScraper.parse_rating Text.capitalize_ascii ["star-rating"; "Six"] = 0.
Proof.
  assert (C : capitalizes_ascii Text.capitalize_ascii) by (by intros s _).
  assert (L : ∀ cls, Text.lower cls ≠ "one" → Text.lower cls ≠ "two" →
               Text.lower cls ≠ "three" → Text.lower cls ≠ "four" →
               Text.lower cls ≠ "five" →
               Text.lower (Text.strip cls) ≠ "one" →
               Text.lower (Text.strip cls) ≠ "two" →
               Text.lower (Text.strip cls) ≠ "three" →
               Text.lower (Text.strip cls) ≠ "four" →
               Text.lower (Text.strip cls) ≠ "five" → ¬ recognized_ascii cls).
  { intros cls ? ? ? ? ? ? ? ? ? ? (label & [v Hv] & Hm).
    destruct (rating_labels _ _ Hv) as [[-> _]|[[-> _]|[[-> _]|[[-> _]|[-> _]]]]];
      by destruct Hm. }
  destruct (rating_mapping Text.capitalize_ascii ["star-rating"; "Three"] C)
    as (_ & H3 & _ & _ & A & _).
  assert (S : ¬ recognized Text.capitalize_ascii "star-rating").
  { rewrite A by reflexivity. apply L; by vm_compute. }
  assert (X : ¬ recognized Text.capitalize_ascii "Six").
  { rewrite A by reflexivity. apply L; by vm_compute. }
  destruct (H3 ["star-rating"] "Three" 3 [] eq_refl eq_refl) as (_ & HS & HB).
  { by constructor. }
  destruct (rating_mapping Text.capitalize_ascii ["star-rating"; "Six"] C)
    as (H0 & _).
  destruct H0 as [HS0 HB0]. { by repeat constructor. }
  by repeat split.
Defined.

(** ** The fetcher *)

Section Fetcher.

Variable env : Env.

Lemma bind_run {A B} (m : io A) (k : A → io B) st :
  (m ≫= k) st
  = match m st with
    | (Ok a, s) => k a s
    | (Raise e, s) => (Raise e, s)
    end.
Proof. reflexivity. Qed.

Lemma fetch_only_refl st : fetch_only st st.
Proof.
  repeat split. exists []. by rewrite app_nil_r.
Qed.

Lemma fetch_only_trans a b c : fetch_only a b → fetch_only b c → fetch_only a c.
Proof.
  intros (A1 & A2 & A3 & A4 & e1 & A5 & A6) (B1 & B2 & B3 & B4 & e2 & B5 & B6).
  repeat split; try congruence.
  exists (e1 ++ e2). split; [|by apply Forall_app].
  by rewrite B5, A5, app_assoc.
Qed.

Lemma fetch_only_sent url st : fetch_only st (sent url st).
Proof. repeat split. exists [EGet url]. split; [done|]. by repeat constructor. Qed.

Lemma fetch_only_slept st : fetch_only st (slept st).
Proof. repeat split. exists [ESleep]. split; [done|]. by repeat constructor. Qed.

(** One attempt that does not get status 200: the GET is sent and the
    guarded block gives nothing back. *)
Lemma attempt_not_200 url st :
  (∀ soup, net env (requests st) url ≠ Response 200 soup) →
  attempt_block env url st = (Ok None, sent url st).
Proof.
  intros H. unfold attempt_block, IO.try_except_only, session_get, mbind,
    io_bind, mret, io_ret.
  simpl. destruct (net env (requests st) url) as [code soup|] eqn:E; simpl; [|done].
  destruct (Z.eqb_spec code 200) as [->|]; [|done].
  by destruct (H soup).
Qed.

Lemma attempt_200 url st soup :
  net env (requests st) url = Response 200 soup →
  attempt_block env url st = (Ok (Some soup), slept (sent url st)).
Proof.
  intros E. unfold attempt_block, IO.try_except_only, session_get, mbind,
    io_bind, mret, io_ret.
  simpl. by rewrite E.
Qed.

Lemma attempt_cases url st :
  (∃ soup, net env (requests st) url = Response 200 soup)
  ∨ (∀ soup, net env (requests st) url ≠ Response 200 soup).
Proof.
  destruct (net env (requests st) url) as [code soup|]; [|by right].
  destruct (Z.eq_dec code 200) as [->|]; [left; by eexists|].
  right. intros soup' [= ? ?]. done.
Qed.

Lemma retry_attempts_cons attempt later url st :
  retry_attempts env (attempt :: later) url st
  = match attempt_block env url st with
    | (Ok (Some soup), s) => (Ok (Some soup), s)
    | (Ok None, s) =>
        retry_attempts env later url
          (if (attempt <? RETRY_ATTEMPTS)%nat then slept s else s)
    | (Raise e, s) => (Raise e, s)
    end.
Proof.
  simpl retry_attempts. rewrite bind_run. destruct (attempt_block env url st) as [[[soup|]|e] s]; try done.
  rewrite bind_run. by destruct (attempt <? RETRY_ATTEMPTS)%nat.
Qed.

(** [retry_get] never raises, and it only sends requests and sleeps. *)
Lemma retry_attempts_fetch_only attempts url st :
  ∃ r st', retry_attempts env attempts url st = (Ok r, st')
           ∧ fetch_only st st'.
Proof.
  revert st. induction attempts as [|attempt later IH]; intros st.
  { exists None, st. split; [done|apply fetch_only_refl]. }
  rewrite retry_attempts_cons.
  destruct (attempt_cases url st) as [[soup E]|E].
  - rewrite (attempt_200 _ _ _ E). eexists _, _. split; [done|].
    eapply fetch_only_trans; [apply fetch_only_sent|apply fetch_only_slept].
  - rewrite (attempt_not_200 _ _ E).
    destruct (IH (if (attempt <? RETRY_ATTEMPTS)%nat
                  then slept (sent url st) else sent url st))
      as (r & st' & -> & F).
    exists r, st'. split; [done|].
    eapply fetch_only_trans; [apply fetch_only_sent|].
    destruct (attempt <? RETRY_ATTEMPTS)%nat; [|done].
    eapply fetch_only_trans; [apply fetch_only_slept|done].
Qed.

Lemma retry_get_fetch_only url st :
  ∃ r st', retry_get env url st = (Ok r, st') ∧ fetch_only st st'.
Proof. apply retry_attempts_fetch_only. Qed.

(** Whatever comes of it, a pending attempt is sent. *)
Lemma retry_attempts_sends attempt later url st :
  ∃ more, trace (retry_attempts env (attempt :: later) url st).2
          = (trace st ++ EGet url :: more).
Proof.
  rewrite retry_attempts_cons.
  destruct (attempt_cases url st) as [[soup E]|E].
  - rewrite (attempt_200 _ _ _ E). exists [ESleep]. simpl.
    by rewrite <- app_assoc.
  - rewrite (attempt_not_200 _ _ E).
    destruct (retry_attempts_fetch_only later url
                (if (attempt <? RETRY_ATTEMPTS)%nat
                 then slept (sent url st) else sent url st))
      as (r & st' & -> & _ & _ & _ & _ & evs & T & _).
    simpl. rewrite T.
    destruct (attempt <? RETRY_ATTEMPTS)%nat; simpl;
      rewrite <- !app_assoc; by eexists.
Qed.

Lemma non_success_not_200 o soup : non_success o → o ≠ Response 200 soup.
Proof. intros H ->. simpl in H. lia. Qed.

(** Three attempts that do not get status 200, and [retry_get] gives up. *)
Lemma retry_get_exhausted url st :
  (∀ n soup, net env n url ≠ Response 200 soup) →
  retry_get env url st
  = (Ok None,
     {| requests := requests st + 3; appends := appends st;
        saves := saves st; csv := csv st; checkpoint := checkpoint st;
        trace := trace st ++ [EGet url; ESleep; EGet url; ESleep;
                              EGet url] |}).
Proof.
  intros F. unfold retry_get. simpl seq.
  do 3 (rewrite retry_attempts_cons, attempt_not_200 by (intros; apply F);
        cbv beta iota fix delta [RETRY_ATTEMPTS Nat.ltb Nat.leb]).
  unfold sent, slept. simpl.
  f_equal. f_equal; [lia|]. by rewrite <- !app_assoc.
Qed.

(** C3.  When every GET of a URL fails (no answer, or a status outside
    200..299), [retry_get] sends exactly RETRY_ATTEMPTS = 3 requests,
    sleeping between them, and returns [None]; it does not raise. *)
Theorem retry_exhaustion url st :
  (∀ n, non_success (net env n url)) →
  RETRY_ATTEMPTS = 3%nat
  ∧ retry_get env url st
    = (Ok None,
       {| requests := requests st + 3; appends := appends st;
          saves := saves st; csv := csv st; checkpoint := checkpoint st;
          trace := trace st ++ [EGet url; ESleep; EGet url; ESleep;
                                EGet url] |}).
Proof.
  intros H. split; [done|]. apply retry_get_exhausted.
  intros n soup. by apply non_success_not_200.
Qed.

(** The outcomes of [retry_get], attempt by attempt. *)
Lemma retry_get_cases url st :
  ∃ r st',
    retry_get env url st = (Ok r, st')
    ∧ appends st' = appends st ∧ saves st' = saves st
    ∧ csv st' = csv st ∧ checkpoint st' = checkpoint st
    ∧ ((∃ k soup,
          (k < 3)%nat ∧ r = Some soup
          ∧ net env (requests st + k) url = Response 200 soup
          ∧ no_200_in env url (requests st) k
          ∧ requests st' = (requests st + S k)%nat
          ∧ trace st' = trace st ++ polls url (S k))
       ∨ (r = None
          ∧ no_200_in env url (requests st) 3
          ∧ requests st' = (requests st + 3)%nat
          ∧ trace st' = trace st ++ [EGet url; ESleep; EGet url; ESleep;
                                     EGet url])).
Proof.
  assert (N1 : ∀ n, S n = (n + 1)%nat) by (intros; lia).
  assert (N2 : ∀ n, S (S n) = (n + 2)%nat) by (intros; lia).
  unfold retry_get, no_200_in. simpl seq.
  destruct (attempt_cases url st) as [[soup E0]|E0].
  { rewrite retry_attempts_cons, (attempt_200 _ _ _ E0).
    eexists _, _. split; [done|]. do 4 (split; [done|]).
    left. exists O, soup. rewrite Nat.add_0_r. split_and!; try done.
    - lia.
    - intros j ? ?. lia.
    - simpl. lia.
    - simpl. by rewrite <- app_assoc. }
  rewrite retry_attempts_cons, (attempt_not_200 _ _ E0).
  cbv beta iota fix delta [RETRY_ATTEMPTS Nat.ltb Nat.leb].
  destruct (attempt_cases url (slept (sent url st))) as [[soup E1]|E1];
    simpl in E1; rewrite N1 in E1.
  { rewrite retry_attempts_cons, (attempt_200 url _ soup)
      by (simpl; rewrite N1; exact E1).
    eexists _, _. split; [done|]. do 4 (split; [done|]).
    left. exists 1%nat, soup. split_and!; try done.
    - lia.
    - intros j s' Hj. assert (j = O) as -> by lia. rewrite Nat.add_0_r.
      apply E0.
    - simpl. lia.
    - simpl. by rewrite <- !app_assoc. }
  rewrite retry_attempts_cons, attempt_not_200
    by (simpl; rewrite N1; exact E1).
  cbv beta iota fix delta [RETRY_ATTEMPTS Nat.ltb Nat.leb].
  destruct (attempt_cases url (slept (sent url (slept (sent url st)))))
    as [[soup E2]|E2]; simpl in E2; rewrite N2 in E2.
  { rewrite retry_attempts_cons, (attempt_200 url _ soup)
      by (simpl; rewrite N2; exact E2).
    eexists _, _. split; [done|]. do 4 (split; [done|]).
    left. exists 2%nat, soup. split_and!; try done.
    - lia.
    - intros j s' Hj. destruct j as [|[|j]]; [| |lia].
      + rewrite Nat.add_0_r. apply E0.
      + apply E1.
    - simpl. lia.
    - simpl. by rewrite <- !app_assoc. }
  rewrite retry_attempts_cons, attempt_not_200
    by (simpl; rewrite N2; exact E2).
  cbv beta iota fix delta [RETRY_ATTEMPTS Nat.ltb Nat.leb].
  eexists _, _. split; [reflexivity|]. do 4 (split; [done|]).
  right. split_and!; try done.
  - intros j s' Hj. destruct j as [|[|[|j]]]; [| | |lia].
    + rewrite Nat.add_0_r. apply E0.
    + apply E1.
    + apply E2.
  - simpl. lia.
  - simpl. by rewrite <- !app_assoc.
Qed.

(** C4, as the code has it.  At every attempt of the loop of [retry_get]:
    an answer with status 200 ends the loop at once, the page is returned
    after one pause and no further request is sent; any other status, or no
    answer, makes the loop go on with the attempts that are left, after a
    pause when this was not the last attempt.  So the page of the first
    answer with status 200 among the first three is returned after exactly
    as many requests; an answer without that status is followed by a
    further request as long as fewer than three were sent, and by the
    result [None] after the third. *)
Theorem retry_policy url st :
  (∀ attempt later s,
     let go_on :=
       retry_attempts env (attempt :: later) url s
       = retry_attempts env later url
           (if (attempt <? RETRY_ATTEMPTS)%nat
            then slept (sent url s) else sent url s) in
     match net env (requests s) url with
     | Response code soup =>
         if code =? 200
         then retry_attempts env (attempt :: later) url s
              = (Ok (Some soup), slept (sent url s))
         else go_on
     | NetworkError => go_on
     end)
  ∧ retry_get env url st = retry_attempts env [1; 2; 3]%nat url st
  ∧ (∀ k soup,
       (k < 3)%nat →
       no_200_in env url (requests st) k →
       net env (requests st + k) url = Response 200 soup →
       ∃ st', retry_get env url st = (Ok (Some soup), st')
              ∧ requests st' = (requests st + S k)%nat
              ∧ trace st' = trace st ++ polls url (S k))
  ∧ (∀ k,
       (k < 2)%nat →
       no_200_in env url (requests st) (S k) →
       ∃ more, trace (retry_get env url st).2
               = trace st ++ polls url (S k) ++ EGet url :: more)
  ∧ (no_200_in env url (requests st) 3 →
     ∃ st', retry_get env url st = (Ok None, st')
            ∧ requests st' = (requests st + 3)%nat
            ∧ trace st' = trace st ++ [EGet url; ESleep; EGet url; ESleep;
                                       EGet url]).
Proof.
  split; [|split; [done|]].
  { intros attempt later s go_on. subst go_on.
    rewrite retry_attempts_cons.
    destruct (net env (requests s) url) as [code soup|] eqn:E.
    - destruct (Z.eqb_spec code 200) as [->|N].
      + by rewrite (attempt_200 _ _ _ E).
      + rewrite attempt_not_200; [done|]. congruence.
    - rewrite attempt_not_200; [done|]. congruence. }
  destruct (retry_get_cases url st)
    as (r & st' & E & _ & _ & _ & _ & [(k' & soup' & Hk' & -> & N' & F' & R' & T')
                                      |(-> & F' & R' & T')]);
    rewrite E; cbn [snd]; split_and!.
  - intros k soup Hk F N.
    destruct (Nat.lt_trichotomy k k') as [Lt|[->|Gt]].
    + by destruct (F' k soup Lt).
    + assert (soup' = soup) as -> by congruence. by exists st'.
    + by destruct (F k' soup' Gt).
  - intros k Hk F.
    destruct (Nat.lt_ge_cases k' (S k)) as [Lt|Ge].
    { by destruct (F k' soup' Lt). }
    rewrite T'.
    destruct k as [|[|k]], k' as [|[|[|k']]]; try lia; simpl; by eexists.
  - intros F. by destruct (F k' soup' Hk').
  - intros k soup Hk F N. by destruct (F' k soup Hk).
  - intros k Hk F. rewrite T'.
    destruct k as [|[|k]]; try lia; simpl; by eexists.
  - intros _. by exists st'.
Qed.

End Fetcher.

(** C3 on a server that answers 500 to everything. *)
Lemma retry_exhaustion_witness :
  retry_get (env_status 500) BASE_URL fresh
  = (Ok None,
     {| requests := 3; appends := 0; saves := 0; csv := None;
        checkpoint := CkAbsent;
        trace := [EGet BASE_URL; ESleep; EGet BASE_URL; ESleep;
                  EGet BASE_URL] |}).
Proof.
  refine (proj2 (retry_exhaustion (env_status 500) BASE_URL fresh _)).
  intros n. simpl. lia.
Defined.

(** C4 on a server that answers 500 to the first request and 200 to the
    second: the page comes back after two requests. *)
Lemma retry_policy_witness :
  ∃ st', retry_get env_flaky BASE_URL fresh = (Ok (Some shop_home), st')
         ∧ requests st' = 2%nat
         ∧ trace st' = [EGet BASE_URL; ESleep; EGet BASE_URL; ESleep].
Proof.
  destruct (retry_policy env_flaky BASE_URL fresh) as (_ & _ & H & _).
  apply (H 1%nat shop_home).
  - lia.
  - intros j soup Hj. assert (j = O) as -> by lia. discriminate.
  - reflexivity.
Defined.

(** C4 as the specification words it fails: a server that answers 201, a
    success status, to everything is asked three times and [retry_get]
    reports a failure. *)
Lemma retry_policy_2xx_counterexample :
  net (env_status 201) 0 BASE_URL = Response 201 blank_page
  ∧ 200 ≤ 201 ≤ 299
  ∧ retry_get (env_status 201) BASE_URL fresh
    = (Ok None,
       {| requests := 3; appends := 0; saves := 0; csv := None;
          checkpoint := CkAbsent;
          trace := [EGet BASE_URL; ESleep; EGet BASE_URL; ESleep;
                    EGet BASE_URL] |}).
Proof. split; [reflexivity|]. split; [lia|]. reflexivity. Qed.

(** ** Reading and writing CSV rows *)

Section CsvRows.

Variable names : list string.

Lemma zip_fmap_self {B} (h : string → B) (l : list string) :
  zip l (h <$> l) = (λ n, (n, h n)) <$> l.
Proof. induction l as [|n l IH]; [done|]. simpl. f_equal. exact IH. Qed.

Lemma read_uniform_named (g : string → string) :
  Csv.named (Csv.read_row names (g <$> names))
  = list_to_map (reverse ((λ n, (n, Some (g n))) <$> names)).
Proof.
  unfold Csv.read_row, Csv.pad. simpl.
  rewrite length_fmap, Nat.sub_diag. simpl. rewrite app_nil_r.
  rewrite <- list_fmap_compose. by rewrite zip_fmap_self.
Qed.

(** A name of the header reads back the cell written for it. *)
Lemma get_read_uniform (g : string → string) f :
  f ∈ names → Csv.get f (Csv.read_row names (g <$> names)) = Some (g f).
Proof.
  intros Hf. unfold Csv.get. rewrite read_uniform_named.
  destruct (list_to_map _ !! f) as [x|] eqn:E.
  - apply elem_of_list_to_map_2 in E. rewrite elem_of_reverse in E.
    apply list_elem_of_fmap in E as (n & [= -> ->] & _). done.
  - apply not_elem_of_list_to_map_2 in E. destruct E.
    rewrite <- fmap_reverse, <- list_fmap_compose.
    apply list_elem_of_fmap. exists f. by rewrite elem_of_reverse.
Qed.

(** A name that is not in the header reads as [None]. *)
Lemma get_read_missing l f :
  f ∉ names → Csv.get f (Csv.read_row names l) = None.
Proof.
  intros Hf. unfold Csv.get, Csv.read_row. simpl.
  rewrite not_elem_of_list_to_map_1; [done|].
  intros ((n & x) & -> & Hm)%list_elem_of_fmap.
  rewrite elem_of_reverse in Hm. by apply elem_of_zip_l in Hm.
Qed.

Lemma key_of_uniform key_field (g : string → string) :
  key_field ∈ names → key_of key_field names (g <$> names) = Some (g key_field).
Proof. apply get_read_uniform. Qed.


(** Writing back a row read from a uniform line gives the line. *)
Lemma writerow_read_uniform (g : string → string) :
  Csv.writerow names (Csv.read_row names (g <$> names)) = Ok (g <$> names).
Proof.
  unfold Csv.writerow.
  rewrite bool_decide_eq_true_2; last first.
  { rewrite read_uniform_named, dom_list_to_map_L.
    intros n. rewrite !elem_of_list_to_set, <- fmap_reverse.
    rewrite <- list_fmap_compose. simpl.
    intros (m & -> & Hm)%list_elem_of_fmap.
    by rewrite elem_of_reverse in Hm. }
  rewrite bool_decide_eq_true_2; last first.
  { unfold Csv.read_row. simpl. rewrite length_fmap.
    by rewrite (proj2 (Nat.ltb_ge _ _)) by lia. }
  simpl. f_equal. apply list_fmap_ext. intros i f Hi.
  rewrite get_read_uniform; [done|]. by eapply list_elem_of_lookup_2.
Qed.

Lemma writerows_read_uniform (lines : list Csv.line) :
  Forall (uniform names) lines →
  Csv.writerows names (Csv.read_row names <$> lines) = (lines, true).
Proof.
  induction 1 as [|l lines [g ->] _ IH]; [done|].
  rewrite fmap_cons. cbn [Csv.writerows].
  by rewrite writerow_read_uniform, IH.
Qed.

(** Under a header without repeated names, a line with one cell per name
    is uniform. *)
Lemma record_uniform l :
  NoDup names → length l = length names → uniform names l.
Proof.
  intros Hn Hl.
  exists (λ f, default "" (Csv.get f (Csv.read_row names l))).
  apply list_eq. intros i. rewrite list_lookup_fmap.
  destruct (names !! i) as [f|] eqn:Ef; simpl.
  - destruct (l !! i) as [c|] eqn:Ec.
    2:{ apply lookup_ge_None in Ec. apply lookup_lt_Some in Ef. lia. }
    f_equal. unfold Csv.get, Csv.read_row, Csv.pad. simpl.
    rewrite Hl, Nat.sub_diag. simpl. rewrite app_nil_r.
    erewrite elem_of_list_to_map_1 with (x := Some c); [done| |].
    + rewrite fmap_reverse, fst_zip by (rewrite length_fmap; lia).
      by rewrite reverse_Permutation.
    + apply elem_of_reverse. apply list_elem_of_lookup. exists i.
      apply lookup_zip_with_Some. exists f, (Some c).
      by rewrite list_lookup_fmap, Ec.
  - apply lookup_ge_None. apply lookup_ge_None in Ef. lia.
Qed.


End CsvRows.

(** ** Deduplication *)

Lemma truthy_ne s : Text.truthy s = true ↔ s ≠ "".
Proof. destruct s; simpl; split; (done || congruence). Qed.

Section KeptFrom.

Variables (key_field : string) (hdr : list string).

Local Abbreviation K := (key_of key_field hdr).
Local Abbreviation kept := (kept_from key_field hdr).

Lemma takes_iff k (seen : list string) :
  Text.truthy k && negb (bool_decide (k ∈ seen)) = true ↔ k ≠ "" ∧ k ∉ seen.
Proof.
  rewrite andb_true_iff, negb_true_iff, bool_decide_eq_false.
  by rewrite truthy_ne.
Qed.

(** The two outcomes of one line. *)
Lemma kept_cons seen l later :
  (∃ k, K l = Some k ∧ k ≠ "" ∧ (k ∉ seen)
        ∧ kept seen (l :: later) = l :: kept (seen ++ [k]) later)
  ∨ ((∀ k, K l = Some k → k = "" ∨ k ∈ seen)
     ∧ kept seen (l :: later) = kept seen later).
Proof.
  simpl. destruct (K l) as [k|] eqn:E; [|right; by split].
  destruct (Text.truthy k && negb (bool_decide (k ∈ seen))) eqn:T.
  - left. exists k. apply takes_iff in T as [? ?]. done.
  - right. split; [|done]. intros k' [= <-].
    destruct (decide (k = "")) as [|N1]; [by left|].
    destruct (decide (k ∈ seen)) as [|N2]; [by right|].
    assert (Text.truthy k && negb (bool_decide (k ∈ seen)) = true)
      by by apply takes_iff.
    congruence.
Qed.

Lemma kept_sublist seen lines : kept seen lines `sublist_of` lines.
Proof.
  revert seen. induction lines as [|l later IH]; intros seen; [done|].
  destruct (kept_cons seen l later) as [(k & _ & _ & _ & ->)|[_ ->]].
  - by apply sublist_skip.
  - by apply sublist_cons.
Qed.

Lemma kept_keys seen lines l :
  l ∈ kept seen lines → ∃ k, K l = Some k ∧ k ≠ "" ∧ k ∉ seen.
Proof.
  revert seen. induction lines as [|l1 later IH]; intros seen.
  { by intros ?%elem_of_nil. }
  destruct (kept_cons seen l1 later) as [(k & E & N & S & ->)|[_ ->]].
  - intros [->|H]%elem_of_cons; [by exists k|].
    destruct (IH _ H) as (k' & ? & ? & S'). exists k'.
    repeat split; try done. intros ?. apply S', elem_of_app. by left.
  - apply IH.
Qed.

Lemma kept_NoDup seen lines : NoDup (K <$> kept seen lines).
Proof.
  revert seen. induction lines as [|l1 later IH]; intros seen.
  { constructor. }
  destruct (kept_cons seen l1 later) as [(k & E & N & S & ->)|[_ ->]]; [|done].
  rewrite fmap_cons. apply NoDup_cons. split; [|done].
  intros (l & El & Hl)%list_elem_of_fmap.
  destruct (kept_keys _ _ _ Hl) as (k' & E' & _ & S').
  apply S', elem_of_app. right. apply list_elem_of_singleton. congruence.
Qed.

(** The lines kept are those that bring a usable key for the first
    time. *)
Lemma kept_first_seen seen lines l :
  l ∈ kept seen lines ↔
  ∃ before after k,
    lines = (before ++ l :: after)
    ∧ K l = Some k ∧ k ≠ "" ∧ (k ∉ seen)
    ∧ ∀ l', l' ∈ before → K l' ≠ Some k.
Proof.
  revert seen. induction lines as [|l1 later IH]; intros seen.
  { split; [by intros ?%elem_of_nil|].
    intros (before & after & k & E & _). by destruct before. }
  destruct (kept_cons seen l1 later) as [(k1 & E1 & N1 & S1 & ->)|[Skip ->]].
  - rewrite elem_of_cons, IH. split.
    + intros [->|(before & after & k & -> & E & N & S & B)].
      * exists [], later, k1. repeat split; try done.
        by intros l' ?%elem_of_nil.
      * exists (l1 :: before), after, k. repeat split; try done.
        { intros ?. apply S, elem_of_app. by left. }
        intros l' [->|?]%elem_of_cons; [|by apply B].
        rewrite E1. intros [= ->]. apply S, elem_of_app. right.
        by apply list_elem_of_singleton.
    + intros (before & after & k & E & Ek & N & S & B).
      destruct before as [|l0 before]; simpl in E.
      * left. congruence.
      * injection E as <- ->. right. exists before, after, k.
        repeat split; try done.
        { intros [?|Hk%list_elem_of_singleton]%elem_of_app; [done|].
          subst k. by apply (B l1); [left|]. }
        intros l' ?. apply B. by right.
  - rewrite IH. split.
    + intros (before & after & k & -> & E & N & S & B).
      exists (l1 :: before), after, k. repeat split; try done.
      intros l' [->|?]%elem_of_cons; [|by apply B].
      intros E1. destruct (Skip _ E1); done.
    + intros (before & after & k & E & Ek & N & S & B).
      destruct before as [|l0 before]; simpl in E.
      * injection E as <- ->. destruct (Skip _ Ek); done.
      * injection E as <- ->. exists before, after, k.
        repeat split; try done. intros l' ?. apply B. by right.
Qed.

(** Lines with usable, distinct, unseen keys are all kept, and lines that
    bring nothing new after them are all dropped. *)
Lemma kept_absorbs seen lines extra :
  Forall (λ l, usable_key (K l)) lines →
  NoDup (K <$> lines) →
  (∀ l k, l ∈ lines → K l = Some k → k ∉ seen) →
  (∀ l k, l ∈ extra → K l = Some k →
          k = "" ∨ k ∈ seen ∨ Some k ∈ K <$> lines) →
  kept seen (lines ++ extra) = lines.
Proof.
  revert seen. induction lines as [|l1 later IH]; intros seen U D S X.
  - simpl. induction extra as [|x extra IHx]; [done|].
    destruct (kept_cons seen x extra) as [(k & E & N & Sx & _)|[_ ->]].
    + destruct (X x k) as [?|[?|?%elem_of_nil]]; try done. by left.
    + apply IHx. intros l k ?. apply X. by right.
  - apply Forall_cons in U as [(k1 & E1 & N1) U].
    rewrite fmap_cons in D. apply NoDup_cons in D as [D1 D].
    simpl app.
    destruct (kept_cons seen l1 (later ++ extra)) as [(k & E & N & Sk & ->)|[Skip _]].
    + f_equal. assert (k = k1) as -> by congruence. apply IH; try done.
      * intros l k Hl El [?|Hk%list_elem_of_singleton]%elem_of_app.
        { apply (S l k); [by right|done|done]. }
        subst k. apply D1. rewrite E1, <- El. by apply list_elem_of_fmap_2.
      * intros l k Hl El. destruct (X l k Hl El) as [?|[?|H]]; [by left| |].
        { right. left. apply elem_of_app. by left. }
        rewrite fmap_cons in H. apply elem_of_cons in H as [H|H].
        { rewrite E1 in H. injection H as ->. right. left.
          apply elem_of_app. right. by apply list_elem_of_singleton. }
        by right; right.
    + destruct (Skip _ E1) as [?|?]; [done|].
      by destruct (S l1 k1); [left| |].
Qed.

Lemma key_of_blank : K [] = None.
Proof.
  unfold key_of, Csv.get, Csv.read_row, Csv.pad. simpl.
  rewrite Nat.sub_0_r.
  destruct (list_to_map _ !! key_field) as [[c|]|] eqn:E; [|done|done].
  apply elem_of_list_to_map_2 in E. rewrite elem_of_reverse in E.
  apply elem_of_zip_r in E. by apply elem_of_replicate in E as [? _].
Qed.

(** [DictReader] skips blank lines; they would not be kept anyway. *)
Lemma kept_skips_blank seen lines :
  kept seen (filter (λ l, l ≠ []) lines) = kept seen lines.
Proof.
  revert seen. induction lines as [|l later IH]; intros seen; [done|].
  destruct (decide (l = [])) as [->|N].
  - rewrite filter_cons_False by naive_solver. rewrite IH.
    simpl. by rewrite key_of_blank.
  - rewrite filter_cons_True by done. simpl.
    destruct (K l) as [k|]; [|apply IH].
    destruct (_ && _); by rewrite IH.
Qed.

(** The reading loop of [deduplicate_csv] collects exactly the kept
    lines, in their order. *)
Lemma collect_kept (seen : seen_dict) lines :
  foldl (seen_step key_field) seen (Csv.read_row hdr <$> lines)
  = (seen ++ ((λ l, (default "" (K l), Csv.read_row hdr l))
                <$> kept seen.*1 lines)).
Proof.
  revert seen. induction lines as [|l later IH]; intros seen.
  { simpl. by rewrite app_nil_r. }
  rewrite fmap_cons. cbn [foldl]. rewrite IH. unfold seen_step.
  cbn [kept_from]. fold (K l). unfold seen_has.
  destruct (K l) as [k|] eqn:E; [|done].
  destruct (Text.truthy k && negb (bool_decide (k ∈ seen.*1))); [|done].
  rewrite fmap_app, (fmap_cons _ l). cbn beta. rewrite E. simpl.
  by rewrite <- app_assoc.
Qed.

(** The kept lines, by their places: the places, in rising order, of the
    lines that bring a usable key no line above them has. *)
Lemma kept_indices seen lines :
  ∃ idx,
    Forall2 (λ i l, lines !! i = Some l) idx (kept seen lines)
    ∧ StronglySorted lt idx
    ∧ ∀ i, i ∈ idx ↔
           ∃ l k, lines !! i = Some l ∧ K l = Some k ∧ k ≠ "" ∧ (k ∉ seen)
                  ∧ ∀ j l', (j < i)%nat → lines !! j = Some l' → K l' ≠ Some k.
Proof.
  revert seen. induction lines as [|l1 later IH]; intros seen.
  { exists []. split; [constructor|]. split; [constructor|].
    intros i. split; [by intros ?%elem_of_nil|]. by intros (l & k & ? & _). }
  assert (Up : ∀ idx' : list nat,
             StronglySorted lt idx' → StronglySorted lt (S <$> idx')).
  { intros idx'. apply StronglySorted_fmap. intros x y. lia. }
  destruct (kept_cons seen l1 later) as [(k1 & E1 & N1 & S1 & ->)|[Skip ->]].
  - destruct (IH (seen ++ [k1])) as (idx' & F & So & M).
    exists (O :: (S <$> idx')). split; [|split].
    + constructor; [done|]. by apply Forall2_fmap_l.
    + constructor; [by apply Up|]. apply Forall_fmap, Forall_forall.
      intros x _. simpl. lia.
    + intros i. rewrite elem_of_cons, list_elem_of_fmap. split.
      * intros [->|(i' & -> & Hi)].
        { exists l1, k1. split_and!; try done. intros j l' Hj. lia. }
        apply M in Hi as (l & k & El & Ek & Nk & Sk & B).
        exists l, k. split_and!; try done.
        { intros ?. apply Sk, elem_of_app. by left. }
        intros [|j] l' Hj; simpl.
        { intros [= <-]. rewrite E1. intros [= ->]. apply Sk, elem_of_app.
          right. by apply list_elem_of_singleton. }
        apply B. lia.
      * intros (l & k & El & Ek & Nk & Sk & B).
        destruct i as [|i]; [by left|]. right. exists i. split; [done|].
        apply M. exists l, k. split_and!; try done.
        { intros [?|Hk%list_elem_of_singleton]%elem_of_app; [done|].
          subst k1. by apply (B O l1); [lia| |]. }
        intros j l' Hj. apply (B (S j)). lia.
  - destruct (IH seen) as (idx' & F & So & M).
    exists (S <$> idx'). split; [|split].
    + by apply Forall2_fmap_l.
    + by apply Up.
    + intros i. rewrite list_elem_of_fmap. split.
      * intros (i' & -> & Hi).
        apply M in Hi as (l & k & El & Ek & Nk & Sk & B).
        exists l, k. split_and!; try done.
        intros [|j] l' Hj; simpl.
        { intros [= <-] E. by destruct (Skip _ E). }
        apply B. lia.
      * intros (l & k & El & Ek & Nk & Sk & B).
        destruct i as [|i].
        { simpl in El. injection El as <-. by destruct (Skip _ Ek). }
        exists i. split; [done|].
        apply M. exists l, k. split_and!; try done.
        intros j l' Hj. apply (B (S j)). lia.
Qed.

(** From the first line on: the places of the kept lines are the places
    where a line is the first with its key, in rising order. *)
Lemma kept_first_at lines :
  ∃ idx,
    Forall2 (first_at key_field hdr lines) idx (kept [] lines)
    ∧ StronglySorted lt idx
    ∧ ∀ i l, first_at key_field hdr lines i l → i ∈ idx.
Proof.
  destruct (kept_indices [] lines) as (idx & F & So & M).
  assert (P : ∀ i l, i ∈ idx → lines !! i = Some l →
                     first_at key_field hdr lines i l).
  { intros i l Hi El. apply M in Hi as (l' & k & El' & Ek & Nk & _ & B).
    assert (l' = l) as -> by congruence.
    split; [done|]. split; [by exists k|].
    intros j l' Hj Ej. rewrite Ek. by eapply B. }
  exists idx. split; [|split; [done|]].
  - clear M So. revert P. induction F as [|i l idx kp Hil F IH]; intros P.
    { constructor. }
    constructor; [apply P; [by left|done]|].
    apply IH. intros i' l' Hi'. apply P. by right.
  - intros i l (El & (k & Ek & Nk) & B). apply M. exists l, k.
    split_and!; try done; [by intros ?%elem_of_nil|].
    intros j l' Hj Ej. rewrite <- Ek. by eapply B.
Qed.

End KeptFrom.

Section Dedup.

Variables (key_field : string) (names : list string).

Lemma dedup_table_kept hdr lines :
  dedup_table key_field names (hdr :: lines)
  = names :: (Csv.writerows names
                (Csv.read_row hdr <$> kept_from key_field hdr [] lines)).1.
Proof.
  unfold dedup_table, rewritten, collect_seen, Csv.dict_reader.
  rewrite collect_kept. simpl. rewrite kept_skips_blank.
  by rewrite <- list_fmap_compose.
Qed.

(** A row that [writerow] accepts gives a uniform line with the row's
    key. *)
Lemma writerow_ok r l k :
  Csv.writerow names r = Ok l → Csv.get key_field r = Some k →
  uniform names l ∧ key_of key_field names l = Some k.
Proof.
  unfold Csv.writerow. intros W G.
  destruct (bool_decide (dom (Csv.named r) ⊆ _)) eqn:D; [|done].
  destruct (bool_decide (Csv.rest r = None)); [|done].
  simpl in W. injection W as <-. apply bool_decide_eq_true in D.
  split; [by eexists|].
  rewrite key_of_uniform, G; [done|].
  apply (elem_of_list_to_set (C := gset string)), D, elem_of_dom.
  unfold Csv.get in G. destruct (Csv.named r !! key_field); by eauto.
Qed.

Lemma written_deduplicated rows :
  Forall (λ r, usable_key (Csv.get key_field r)) rows →
  NoDup (Csv.get key_field <$> rows) →
  deduplicated key_field names (Csv.writerows names rows).1
  ∧ ∀ o, o ∈ key_of key_field names <$> (Csv.writerows names rows).1 →
         o ∈ Csv.get key_field <$> rows.
Proof.
  induction 1 as [|r rows (k & G & N) _ IH]; intros D.
  { simpl. split; [|done]. repeat split; constructor. }
  rewrite fmap_cons in D. apply NoDup_cons in D as [D1 D].
  destruct (IH D) as [(U & Ks & ND) Sub]. cbn [Csv.writerows].
  destruct (Csv.writerow names r) as [l|e] eqn:W.
  2:{ simpl. split; [|by intros ? ?%elem_of_nil]. repeat split; constructor. }
  destruct (Csv.writerows names rows) as [ls ok]. simpl in *.
  destruct (writerow_ok _ _ _ W G) as [Ul Kl].
  split.
  - repeat split.
    + by constructor.
    + constructor; [by exists k|done].
    + apply NoDup_cons. split; [|done].
      intros ?%Sub. apply D1. congruence.
  - intros o [->|?]%elem_of_cons.
    + rewrite Kl, G. by left.
    + right. by apply Sub.
Qed.

(** Whatever the file held, [deduplicate_csv] leaves deduplicated lines
    under the field names. *)
Lemma dedup_shape t :
  ∃ kept, dedup_table key_field names t = names :: kept
          ∧ deduplicated key_field names kept.
Proof.
  destruct t as [|hdr lines].
  { exists []. split; [done|]. repeat split; constructor. }
  rewrite dedup_table_kept. eexists. split; [done|].
  apply written_deduplicated.
  - apply Forall_fmap, Forall_forall. intros l Hl.
    destruct (kept_keys _ _ _ _ _ Hl) as (k & ? & ? & _). by exists k.
  - rewrite <- list_fmap_compose. apply kept_NoDup.
Qed.

(** Deduplicated lines stay, and lines after them that bring no new
    usable key go. *)
Lemma dedup_absorbs kept extra :
  deduplicated key_field names kept →
  (∀ l k, l ∈ extra → key_of key_field names l = Some k →
          k = "" ∨ Some k ∈ key_of key_field names <$> kept) →
  dedup_table key_field names (names :: kept ++ extra) = names :: kept.
Proof.
  intros (U & Ks & ND) X. rewrite dedup_table_kept.
  rewrite kept_absorbs; try done.
  - by rewrite writerows_read_uniform.
  - by intros l k _ _ ?%elem_of_nil.
  - intros l k Hl E. destruct (X l k Hl E); auto.
Qed.

Lemma dedup_idempotent t :
  dedup_table key_field names (dedup_table key_field names t)
  = dedup_table key_field names t.
Proof.
  destruct (dedup_shape t) as (kept & -> & D).
  rewrite <- (app_nil_r kept) at 1. apply dedup_absorbs; [done|].
  by intros l k ?%elem_of_nil.
Qed.

(** [deduplicate_csv] never raises; it rewrites the file when it can read
    it and leaves it alone otherwise. *)
Lemma deduplicate_csv_run env st :
  deduplicate_csv env key_field names st
  = (Ok tt,
     {| requests := requests st; appends := appends st; saves := saves st;
        csv := deduped env key_field names <$> csv st;
        checkpoint := checkpoint st;
        trace := trace st ++ [EDedup] |}).
Proof.
  unfold deduplicate_csv, read_csv, write_csv, IO.try_except, IO.lift,
    mbind, io_bind, IO.emit, IO.get_csv, IO.set_csv, mret, io_ret, deduped,
    Csv.read.
  simpl. destruct (csv st) as [t|]; [|done]. simpl.
  destruct (read_fault env t); [done|].
  destruct (Csv.oversized t); [done|]. simpl.
  by destruct (rewrite_fault env).
Qed.

Lemma deduped_readable env t :
  readable env t → writable env →
  deduped env key_field names t = dedup_table key_field names t.
Proof. intros [R O] W. unfold deduped. by rewrite R, O, W. Qed.

Lemma deduped_unreadable env t :
  ¬ readable env t → deduped env key_field names t = t.
Proof.
  unfold readable, deduped. intros H.
  destruct (read_fault env t); [done|].
  destruct (Csv.oversized t); [done|]. by destruct H.
Qed.

End Dedup.

(** C1, as the code has it.  For a store whose lines are records over the
    field names and which can be read to its end, [deduplicate_csv] rewrites
    the file as the header followed by the lines that bring a present,
    non-empty key for the first time, in their order: the kept lines are
    the lines at the places, taken in rising order, where a line has a
    usable key that no line above it has.  Lines whose key is empty are not
    kept.  A store that cannot be read is left as it was.  The rows A/1,
    B/2, A/3 of the specification give A/1, B/2. *)
Theorem dedup_first_seen :
  (∀ env key_field names lines st,
     NoDup names →
     Forall (λ l, length l = length names) lines →
     csv st = Some (names :: lines) →
     readable env (names :: lines) →
     writable env →
     ∃ kept idx,
       csv (deduplicate_csv env key_field names st).2 = Some (names :: kept)
       ∧ Forall2 (first_at key_field names lines) idx kept
       ∧ StronglySorted lt idx
       ∧ (∀ i l, first_at key_field names lines i l → i ∈ idx)
       ∧ kept `sublist_of` lines
       ∧ NoDup (key_of key_field names <$> kept)
       ∧ ∀ l, l ∈ kept ↔
              usable_key (key_of key_field names l)
              ∧ first_seen key_field names lines l)
  ∧ (∀ env key_field names st t,
       csv st = Some t → ¬ readable env t →
       csv (deduplicate_csv env key_field names st).2 = Some t)
  ∧ csv (deduplicate_csv env_shop "key" ["key"; "v"]
           (with_csv [["key"; "v"]; ["A"; "1"]; ["B"; "2"]; ["A"; "3"]])).2
    = Some [["key"; "v"]; ["A"; "1"]; ["B"; "2"]].
Proof.
  split; [|split; [|by vm_compute]].
  2:{ intros env key_field names st t Hcsv U.
      rewrite deduplicate_csv_run. simpl. rewrite Hcsv. simpl.
      by rewrite deduped_unreadable. }
  intros env key_field names lines st Hn Hl Hcsv R W.
  destruct (kept_first_at key_field names lines) as (idx & F & So & M).
  exists (kept_from key_field names [] lines), idx.
  rewrite deduplicate_csv_run. simpl. rewrite Hcsv. simpl.
  rewrite deduped_readable by done. rewrite dedup_table_kept.
  assert (U : Forall (uniform names) (kept_from key_field names [] lines)).
  { apply Forall_forall. intros l Hin.
    apply record_uniform; [done|].
    eapply Forall_forall in Hl; [done|].
    eapply elem_of_sublist; [done|apply kept_sublist]. }
  rewrite writerows_read_uniform by done.
  do 4 (split; [done|]).
  split; [apply kept_sublist|]. split; [apply kept_NoDup|].
  intros l. rewrite kept_first_seen. split.
  - intros (before & after & k & E & Ek & N & _ & B). split; [by exists k|].
    exists before, after. split; [done|]. intros l' Hin. rewrite Ek. by apply B.
  - intros [(k & Ek & N) (before & after & E & B)].
    exists before, after, k. repeat split; try done.
    + by intros ?%elem_of_nil.
    + intros l' Hin. rewrite <- Ek. by apply B.
Qed.

(** C1 on the store of the specification. *)
Lemma dedup_first_seen_witness :
  ∃ kept idx,
    csv (deduplicate_csv env_shop "key" ["key"; "v"]
           (with_csv [["key"; "v"]; ["A"; "1"]; ["B"; "2"]; ["A"; "3"]])).2
    = Some (["key"; "v"] :: kept)
    ∧ Forall2 (first_at "key" ["key"; "v"]
                 [["A"; "1"]; ["B"; "2"]; ["A"; "3"]]) idx kept
    ∧ StronglySorted lt idx
    ∧ (∀ i l, first_at "key" ["key"; "v"]
                [["A"; "1"]; ["B"; "2"]; ["A"; "3"]] i l → i ∈ idx)
    ∧ kept `sublist_of` [["A"; "1"]; ["B"; "2"]; ["A"; "3"]]
    ∧ NoDup (key_of "key" ["key"; "v"] <$> kept)
    ∧ ∀ l, l ∈ kept ↔
           usable_key (key_of "key" ["key"; "v"] l)
           ∧ first_seen "key" ["key"; "v"]
               [["A"; "1"]; ["B"; "2"]; ["A"; "3"]] l.
Proof.
  apply (proj1 dedup_first_seen).
  - apply (bool_decide_unpack _). by vm_compute.
  - by repeat constructor.
  - reflexivity.
  - split; reflexivity.
  - reflexivity.
Defined.

(** C1 as the specification words it fails: the line with the empty key is
    the first with its key, and it is not kept. *)
Lemma dedup_empty_key_counterexample :
  first_seen "key" ["key"; "v"] [[""; "1"]; ["A"; "2"]] [""; "1"]
  ∧ csv (deduplicate_csv env_shop "key" ["key"; "v"]
           (with_csv [["key"; "v"]; [""; "1"]; ["A"; "2"]])).2
    = Some [["key"; "v"]; ["A"; "2"]].
Proof.
  split; [|by vm_compute].
  exists [], [["A"; "2"]]. split; [done|]. by intros l' ?%elem_of_nil.
Qed.

(** C9, as the code has it.  When [deduplicate_csv] can read the file to
    its end, the file it rewrites has no row whose key field is missing or
    empty, whatever rows it held before. *)
Theorem dedup_drops_empty_keys env key_field names st t :
  csv st = Some t →
  readable env t →
  writable env →
  ∃ t', csv (deduplicate_csv env key_field names st).2 = Some t'
        ∧ ∀ r, r ∈ Csv.dict_reader t' →
               ∃ k, Csv.get key_field r = Some k ∧ k ≠ "".
Proof.
  intros Hcsv R W. rewrite deduplicate_csv_run. simpl. rewrite Hcsv. simpl.
  rewrite deduped_readable by done.
  eexists. split; [done|].
  destruct (dedup_shape key_field names t) as (kept & -> & _ & Ks & _).
  simpl. intros r (l & -> & Hl)%list_elem_of_fmap.
  apply list_elem_of_filter in Hl as [_ Hl].
  eapply Forall_forall in Ks; [|done]. exact Ks.
Qed.

(** C9 on a file that holds a row with an empty key. *)
Lemma dedup_drops_empty_keys_witness :
  ∃ t', csv (deduplicate_csv env_shop "key" ["key"; "v"]
               (with_csv [["key"; "v"]; [""; "1"]; ["A"; "2"]])).2 = Some t'
        ∧ ∀ r, r ∈ Csv.dict_reader t' →
               ∃ k, Csv.get "key" r = Some k ∧ k ≠ "".
Proof.
  eapply dedup_drops_empty_keys; [reflexivity|split; reflexivity|reflexivity].
Defined.

Lemma code_points_iter n s :
  Text.code_points (Pos.iter (String "x") s n)
  = (Npos n + Text.code_points s)%N.
Proof.
  induction n as [|n IH] using Pos.peano_ind.
  - simpl Pos.iter. cbn [Text.code_points]. by vm_compute (nat_of_ascii "x").
  - rewrite Pos.iter_succ. cbn [Text.code_points]. rewrite IH.
    vm_compute (nat_of_ascii "x"). simpl orb. cbv iota. lia.
Qed.

Lemma oversized_cell (t : Csv.table) l cell :
  l ∈ t → cell ∈ l →
  (Csv.field_size_limit < Text.code_points cell)%N →
  Csv.oversized t = true.
Proof.
  intros Hl Hc Hn. unfold Csv.oversized.
  apply existsb_exists. exists l. split; [by apply list_elem_of_In|].
  apply existsb_exists. exists cell. split; [by apply list_elem_of_In|].
  by apply N.ltb_lt.
Qed.

(** C9 as the specification words it fails: a store with a row whose key
    is empty and a cell of 131073 characters, one more than the reader
    takes.  [DictWriter] wrote that cell without complaint; [DictReader]
    raises on it, [deduplicate_csv] logs the exception and the store stays
    as it was, the row with the empty key in it. *)
Lemma dedup_keeps_unread_rows_counterexample :
  let t := [["key"; "v"]; [""; "1"]; ["A"; long_text]] in
  Text.code_points long_text = 131073%N
  ∧ Csv.read t = Raise CsvError
  ∧ deduplicate_csv env_shop "key" ["key"; "v"] (with_csv t)
    = (Ok tt,
       {| requests := 0; appends := 0; saves := 0; csv := Some t;
          checkpoint := CkAbsent; trace := [EDedup] |})
  ∧ [""; "1"] ∈ t
  ∧ key_of "key" ["key"; "v"] [""; "1"] = Some "".
Proof.
  intros t.
  assert (L : Text.code_points long_text = 131073%N).
  { unfold long_text. rewrite code_points_iter. reflexivity. }
  assert (O : Csv.oversized t = true).
  { apply (oversized_cell t ["A"; long_text] long_text).
    - do 2 right. left.
    - right. left.
    - rewrite L. reflexivity. }
  split; [exact L|]. split; [unfold Csv.read; by rewrite O|].
  split; [|split; [right; left|reflexivity]].
  rewrite deduplicate_csv_run. unfold deduped.
  change (csv (with_csv t)) with (Some t). cbn [fmap option_fmap option_map].
  rewrite O, orb_true_r. reflexivity.
Qed.


(** ** The crawl *)

Section Crawl.

Variable env : Env.

Lemma fetch_only_trace st st' :
  fetch_only st st' → ∃ evs, trace st' = trace st ++ evs ∧ crawl_trace evs.
Proof.
  intros (_ & _ & _ & _ & evs & -> & F). exists evs. split; [done|].
  induction F; by constructor.
Qed.

Lemma price_parsed art :
  ∃ v, match art_price art with
       | Some text => Scraper.parse_price text
       | None => Ok 0%Q
       end = Ok v.
Proof.
  destruct (art_price art) as [text|]; [|by eexists].
  eexists. apply parse_price_value.
Qed.

(** An article never makes the page fail, and it only sends requests and
    sleeps. *)
Lemma scrape_article_ok next_url art st :
  ∃ rows st', scrape_article env next_url art st = (Ok rows, st')
              ∧ fetch_only st st'.
Proof.
  unfold scrape_article, IO.try_except.
  destruct (art_link art) as [a|]; rewrite bind_run; unfold IO.lift.
  2:{ eexists _, _. split; [done|]. apply fetch_only_refl. }
  rewrite bind_run.
  destruct (py_urljoin env next_url (a_href a)) as [product_url|e].
  2:{ eexists _, _. split; [done|]. apply fetch_only_refl. }
  rewrite bind_run. destruct (price_parsed art) as [v ->]. rewrite bind_run.
  destruct (retry_get_fetch_only env product_url st) as (r & st1 & -> & F).
  eexists _, _. split; [reflexivity|].
  eapply fetch_only_trans; [exact F|]. apply fetch_only_slept.
Qed.

Lemma scrape_articles_ok next_url arts st :
  ∃ rows st', scrape_articles env next_url arts st = (Ok rows, st')
              ∧ fetch_only st st'.
Proof.
  revert st. induction arts as [|art later IH]; intros st.
  { eexists _, _. split; [done|]. apply fetch_only_refl. }
  simpl. rewrite bind_run.
  destruct (scrape_article_ok next_url art st) as (r1 & s1 & -> & F1).
  rewrite bind_run. destruct (IH s1) as (r2 & s2 & -> & F2).
  eexists _, _. split; [done|]. by eapply fetch_only_trans.
Qed.

Lemma scrape_articles_app next_url l1 l2 st r1 s1 r2 s2 :
  scrape_articles env next_url l1 st = (Ok r1, s1) →
  scrape_articles env next_url l2 s1 = (Ok r2, s2) →
  scrape_articles env next_url (l1 ++ l2) st = (Ok (r1 ++ r2), s2).
Proof.
  revert st r1. induction l1 as [|art l1 IH]; intros st r1 H1 H2.
  - injection H1 as <- <-. simpl app. by rewrite H2.
  - simpl in H1 |- *. rewrite bind_run in H1 |- *.
    destruct (scrape_article_ok next_url art st) as (ra & sa & Ea & _).
    rewrite Ea in H1 |- *. rewrite bind_run in H1 |- *.
    destruct (scrape_articles_ok next_url l1 sa) as (rb & sb & Eb & _).
    rewrite Eb in H1. injection H1 as <- <-.
    rewrite (IH _ _ Eb H2). by rewrite app_assoc.
Qed.

(** An article whose detail page cannot be fetched still gives its row. *)
Lemma scrape_article_degraded next_url art a product_url st :
  art_link art = Some a →
  py_urljoin env next_url (a_href a) = Ok product_url →
  (∀ n, non_success (net env n product_url)) →
  ∃ it st', scrape_article env next_url art st = (Ok [it], st')
            ∧ degraded_item env next_url art a it.
Proof.
  intros L J F. unfold scrape_article, IO.try_except.
  rewrite L, bind_run. unfold IO.lift. rewrite bind_run, J, bind_run.
  destruct (price_parsed art) as [v Ev]. rewrite Ev, bind_run.
  rewrite retry_get_exhausted
    by (intros n soup; by apply non_success_not_200).
  eexists _, _. split; [reflexivity|].
  unfold degraded_item. simpl. by rewrite Ev, J.
Qed.

Lemma item_rows_written rows :
  Csv.writerows fieldnames (item_row env <$> rows)
  = (item_line env <$> rows, true).
Proof.
  induction rows as [|it rows IH]; [done|].
  rewrite !fmap_cons. cbn [Csv.writerows]. rewrite IH.
  assert (Csv.writerow fieldnames (item_row env it) = Ok (item_line env it))
    as -> by reflexivity.
  done.
Qed.

(** The two outcomes of the append of a page. *)
Lemma append_page_run rows page_count st :
  append_page env rows page_count st
  = (Ok tt,
     match append_fault env (appends st) with
     | None =>
         {| requests := requests st; appends := S (appends st);
            saves := saves st;
            csv := Some (default [] (csv st) ++ (item_line env <$> rows));
            checkpoint := checkpoint st;
            trace := trace st ++ [EAppend rows true;
                                  EPrint (length rows) page_count] |}
     | Some k =>
         {| requests := requests st; appends := S (appends st);
            saves := saves st;
            csv := Some (default [] (csv st)
                         ++ take k (item_line env <$> rows));
            checkpoint := checkpoint st;
            trace := trace st ++ [EAppend rows false] |}
     end).
Proof.
  unfold append_page. rewrite item_rows_written.
  unfold mbind, io_bind, IO.tick_appends, IO.get_csv, IO.set_csv, IO.emit,
    mret, io_ret. simpl.
  destruct (append_fault env (appends st)); simpl; [done|].
  by rewrite <- app_assoc.
Qed.

Lemma save_checkpoint_run data st :
  save_checkpoint env data st
  = (Ok tt,
     {| requests := requests st; appends := appends st;
        saves := S (saves st); csv := csv st;
        checkpoint := match save_faults env (saves st) with
                      | SaveOk => CkJson data
                      | SaveOpenFails => checkpoint st
                      | SaveWriteFails => CkInvalid
                      end;
        trace := trace st ++ [ESave data
                                match save_faults env (saves st) with
                                | SaveOk => true
                                | _ => false
                                end] |}).
Proof.
  unfold save_checkpoint, mbind, io_bind, IO.tick_saves, IO.set_checkpoint,
    IO.emit, mret, io_ret. simpl.
  by destruct (save_faults env (saves st)).
Qed.

(** A turn of the loop, step by step: the listing is fetched, the articles
    are scraped, the page is appended, and only then the next link is
    resolved and the checkpoint is saved, in the state the append left.
    When [urljoin] raises on the next link the turn ends there, the page
    appended and no checkpoint saved. *)
Lemma crawl_page_steps page_count next_url st soup st1 rows st2 :
  retry_get env next_url st = (Ok (Some soup), st1) →
  scrape_articles env next_url (articles soup) st1 = (Ok rows, st2) →
  crawl_page env page_count next_url st
  = match next_cursor env next_url soup with
    | Ok cursor =>
        (Ok (cursor_url cursor),
         (save_checkpoint env (checkpoint_of cursor)
            (append_page env rows page_count st2).2).2)
    | Raise e => (Raise e, (append_page env rows page_count st2).2)
    end.
Proof.
  intros E1 E2. unfold crawl_page. rewrite bind_run, E1, bind_run, E2.
  rewrite bind_run, append_page_run. cbn [snd]. unfold next_cursor.
  destruct (next_link soup) as [href|].
  - rewrite bind_run. unfold IO.lift.
    destruct (py_urljoin env next_url href) as [u|e]; [|done].
    by rewrite bind_run, save_checkpoint_run.
  - by rewrite bind_run, save_checkpoint_run.
Qed.

Lemma crawl_page_failed page_count next_url st st1 :
  retry_get env next_url st = (Ok None, st1) →
  crawl_page env page_count next_url st = (Ok None, st1).
Proof. intros E. unfold crawl_page. by rewrite bind_run, E. Qed.

Lemma crawl_trace_app evs1 evs2 :
  crawl_trace evs1 → crawl_trace evs2 → crawl_trace (evs1 ++ evs2).
Proof.
  induction 1 as [|e evs F _ IH|? ? ? ? ? evs _ IH|? ? ? evs _ IH
                 |? ? ? evs _ IH|? evs _ IH]; intros H2;
    simpl; [done|constructor; [done|by apply IH]|constructor; by apply IH..].
Qed.

(** In a crawl trace every save of the checkpoint comes directly after the
    append of a page: after [EAppend rows false], or after
    [EAppend rows true] and the line it prints. *)
Lemma crawl_trace_save evs before data ok after :
  crawl_trace evs →
  evs = before ++ ESave data ok :: after →
  ∃ earlier rows,
    before = earlier ++ [EAppend rows false]
    ∨ ∃ saved page, before = earlier ++ [EAppend rows true; EPrint saved page].
Proof.
  intros H. revert before.
  induction H as [|e evs F _ IH|rows saved page d o evs _ IH|rows d o evs _ IH
                 |rows saved page evs _ IH|rows evs _ IH];
    intros before E.
  - by destruct before.
  - destruct before as [|e' before]; simpl in E.
    { injection E as -> _. done. }
    injection E as <- E.
    destruct (IH _ E) as (earlier & rows & [->| (sv & pg & ->)]);
      exists (e :: earlier), rows; [by left|right; by eexists _, _].
  - destruct before as [|e1 [|e2 [|e3 before]]]; simpl in E; try done.
    + simplify_eq. exists [], rows. right. by eexists _, _.
    + simplify_eq.
      destruct (IH _ eq_refl) as (earlier & rows' & [->| (sv & pg & ->)]);
        exists (EAppend rows true :: EPrint saved page :: ESave d o :: earlier),
               rows'; [by left|right; by eexists _, _].
  - destruct before as [|e1 [|e2 before]]; simpl in E; try done.
    + simplify_eq. exists [], rows. by left.
    + simplify_eq.
      destruct (IH _ eq_refl) as (earlier & rows' & [->| (sv & pg & ->)]);
        exists (EAppend rows false :: ESave d o :: earlier), rows';
        [by left|right; by eexists _, _].
  - destruct before as [|e1 [|e2 before]]; simpl in E; try done.
    simplify_eq.
    destruct (IH _ eq_refl) as (earlier & rows' & [->| (sv & pg & ->)]);
      exists (EAppend rows true :: EPrint saved page :: earlier), rows';
      [by left|right; by eexists _, _].
  - destruct before as [|e1 before]; simpl in E; try done.
    simplify_eq.
    destruct (IH _ eq_refl) as (earlier & rows' & [->| (sv & pg & ->)]);
      exists (EAppend rows false :: earlier), rows';
      [by left|right; by eexists _, _].
Qed.

Lemma crawl_effect_refl st : crawl_effect st st.
Proof.
  split.
  - exists []. rewrite app_nil_r. split; [done|constructor].
  - intros t ->. exists []. by rewrite app_nil_r.
Qed.

Lemma crawl_effect_trans a b c :
  crawl_effect a b → crawl_effect b c → crawl_effect a c.
Proof.
  intros [(e1 & T1 & C1) G1] [(e2 & T2 & C2) G2]. split.
  - exists (e1 ++ e2). rewrite T2, T1, app_assoc.
    split; [done|by apply crawl_trace_app].
  - intros t Ht. destruct (G1 t Ht) as [n1 H1].
    destruct (G2 _ H1) as [n2 H2]. exists (n1 ++ n2). by rewrite app_assoc.
Qed.

Lemma fetch_only_effect st st' : fetch_only st st' → crawl_effect st st'.
Proof.
  intros F. split; [by apply fetch_only_trace|].
  destruct F as (_ & _ & -> & _). intros t ->. exists []. by rewrite app_nil_r.
Qed.

(** The append alone, as a step of the trace. *)
Lemma append_effect rows page_count st :
  crawl_effect st (append_page env rows page_count st).2.
Proof.
  rewrite append_page_run. cbn [snd]. split.
  - destruct (append_fault env (appends st)); simpl;
      eexists; (split; [reflexivity|]);
      first [apply crawl_trace_unsaved, crawl_trace_nil
            |apply crawl_trace_unsaved_failed, crawl_trace_nil].
  - intros t Ht. destruct (append_fault env (appends st)); simpl;
      rewrite Ht; by eexists.
Qed.

(** Append and save, as one step of the trace. *)
Lemma persist_effect rows page_count data st :
  crawl_effect st
    (save_checkpoint env data (append_page env rows page_count st).2).2.
Proof.
  rewrite append_page_run, save_checkpoint_run. cbn [snd]. split.
  - destruct (append_fault env (appends st)); simpl; rewrite <- app_assoc;
      eexists; (split; [reflexivity|]);
      first [apply crawl_trace_page, crawl_trace_nil
            |apply crawl_trace_page_failed, crawl_trace_nil].
  - intros t Ht. destruct (append_fault env (appends st)); simpl;
      rewrite Ht; by eexists.
Qed.

(** A turn of the loop, whether it returns or raises. *)
Lemma crawl_page_effect page_count next_url st :
  ∃ r st', crawl_page env page_count next_url st = (r, st')
           ∧ crawl_effect st st'.
Proof.
  destruct (retry_get_fetch_only env next_url st) as ([soup|] & st1 & E1 & F1).
  - destruct (scrape_articles_ok next_url (articles soup) st1)
      as (rows & st2 & E2 & F2).
    rewrite (crawl_page_steps page_count _ _ _ _ _ _ E1 E2).
    destruct (next_cursor env next_url soup) as [cursor|e];
      (eexists _, _; split; [done|]);
      (eapply crawl_effect_trans; [by apply fetch_only_effect|]);
      (eapply crawl_effect_trans; [by apply fetch_only_effect|]).
    + apply persist_effect.
    + apply append_effect.
  - rewrite (crawl_page_failed _ _ _ _ E1). eexists _, _. split; [done|].
    by apply fetch_only_effect.
Qed.

Lemma crawl_loop_effect fuel page_count next_url st :
  ∃ r st', crawl_loop env fuel page_count next_url st = (r, st')
           ∧ crawl_effect st st'.
Proof.
  revert page_count next_url st.
  induction fuel as [|fuel IH]; intros page_count next_url st; simpl.
  - destruct (negb (Text.truthy next_url)); eexists _, _;
      (split; [done|apply crawl_effect_refl]).
  - destruct (negb (Text.truthy next_url)).
    { eexists _, _. split; [done|]. apply crawl_effect_refl. }
    rewrite bind_run.
    destruct (crawl_page_effect (S page_count) next_url st)
      as ([[next_url'|]|e] & st1 & -> & F1).
    + destruct (IH (S page_count) next_url' st1) as (r & st2 & -> & F2).
      eexists _, _. split; [done|]. by eapply crawl_effect_trans.
    + by eexists _, _.
    + by eexists _, _.
Qed.

End Crawl.

(** C2 as the specification words it fails: on a disk that takes no row,
    the first page of the shop is fetched, its append fails, and the
    checkpoint is saved for the second page all the same, while the store
    holds the header only. *)
Lemma checkpoint_past_lost_rows_counterexample :
  crawl_page env_disk_full 1 BASE_URL (with_csv [fieldnames])
  = (Ok (Some "page-2.html"),
     {| requests := 2; appends := 1; saves := 1;
        csv := Some [fieldnames];
        checkpoint := CkJson (checkpoint_of (JStr "page-2.html"));
        trace := [EGet BASE_URL; ESleep; EGet "a.html"; ESleep; ESleep;
                  EAppend [first_book] false;
                  ESave (checkpoint_of (JStr "page-2.html")) true] |}).
Proof. by vm_compute. Qed.

(** C2, as the code has it.  In every crawl, each save of the checkpoint
    comes directly after the append of that page's rows has ended, whether
    it went through or failed.  In a turn of the loop the checkpoint is
    saved in the state the append left: with all the rows of the page in
    the store when the append went through, with the rows written before
    the failure when it failed; the save does not touch the store.  When
    the next link of the page cannot be resolved, the turn raises after
    the append and nothing is saved. *)
Theorem checkpoint_follows_append env :
  (∀ fuel page_count next_url st,
     ∃ evs,
       trace (crawl_loop env fuel page_count next_url st).2 = trace st ++ evs
       ∧ ∀ before data ok after,
           evs = before ++ ESave data ok :: after →
           ∃ earlier rows,
             before = earlier ++ [EAppend rows false]
             ∨ ∃ saved page,
                 before = earlier ++ [EAppend rows true; EPrint saved page])
  ∧ (∀ page_count next_url st soup st1 rows st2,
       retry_get env next_url st = (Ok (Some soup), st1) →
       scrape_articles env next_url (articles soup) st1 = (Ok rows, st2) →
       let st3 := (append_page env rows page_count st2).2 in
       let st4 := (crawl_page env page_count next_url st).2 in
       match next_cursor env next_url soup with
       | Ok cursor =>
           let data := checkpoint_of cursor in
           st4 = (save_checkpoint env data st3).2
           ∧ csv st4 = csv st3
           ∧ (∃ ok, trace st4 = trace st3 ++ [ESave data ok])
       | Raise e =>
           crawl_page env page_count next_url st = (Raise e, st3)
       end
       ∧ match append_fault env (appends st2) with
         | None =>
             csv st3 = Some (default [] (csv st2) ++ (item_line env <$> rows))
             ∧ trace st3 = trace st2 ++ [EAppend rows true;
                                         EPrint (length rows) page_count]
         | Some k =>
             csv st3 = Some (default [] (csv st2)
                             ++ take k (item_line env <$> rows))
             ∧ trace st3 = trace st2 ++ [EAppend rows false]
         end).
Proof.
  split.
  - intros fuel page_count next_url st.
    destruct (crawl_loop_effect env fuel page_count next_url st)
      as (r & st' & -> & (evs & T & C) & _).
    exists evs. split; [done|]. intros before data ok after.
    by apply crawl_trace_save.
  - intros page_count next_url st soup st1 rows st2 E1 E2 st3 st4.
    subst st3 st4.
    rewrite (crawl_page_steps env page_count _ _ _ _ _ _ E1 E2).
    split.
    + destruct (next_cursor env next_url soup) as [cursor|e]; [|done].
      cbv zeta. rewrite save_checkpoint_run. cbn [snd].
      split; [done|]. split; [done|]. by eexists.
    + rewrite append_page_run. cbn [snd].
      by destruct (append_fault env (appends st2)).
Qed.

(** C2 on the first page of the shop. *)
Lemma checkpoint_follows_append_witness :
  let st := with_csv [fieldnames] in
  let st1 := slept (sent BASE_URL st) in
  let st2 := (scrape_articles env_shop BASE_URL (articles shop_home) st1).2 in
  let st3 := (append_page env_shop [first_book] 1 st2).2 in
  let st4 := (crawl_page env_shop 1 BASE_URL st).2 in
  let data := checkpoint_of (JStr "page-2.html") in
  (st4 = (save_checkpoint env_shop data st3).2
   ∧ csv st4 = csv st3
   ∧ (∃ ok, trace st4 = trace st3 ++ [ESave data ok]))
  ∧ csv st3 = Some (default [] (csv st2)
                    ++ (item_line env_shop <$> [first_book]))
  ∧ trace st3 = trace st2 ++ [EAppend [first_book] true; EPrint 1 1].
Proof.
  apply (proj2 (checkpoint_follows_append env_shop)
           1%nat BASE_URL (with_csv [fieldnames]) shop_home
           (slept (sent BASE_URL (with_csv [fieldnames]))) [first_book]).
  - by vm_compute.
  - by vm_compute.
Defined.

(** C6.  An article whose detail page cannot be fetched, all attempts
    failing, still gives its row, with the number of reviews -1 and the
    title, price, rating and URL taken from the listing; the articles
    before and after it give their rows as they would anyway, and the rows
    of the page, this one among them, are appended. *)
Theorem partial_enrichment env next_url before art a product_url after st :
  art_link art = Some a →
  py_urljoin env next_url (a_href a) = Ok product_url →
  (∀ n, non_success (net env n product_url)) →
  ∃ rows_before it rows_after st1 st2 st3,
    scrape_articles env next_url before st = (Ok rows_before, st1)
    ∧ scrape_article env next_url art st1 = (Ok [it], st2)
    ∧ scrape_articles env next_url after st2 = (Ok rows_after, st3)
    ∧ scrape_articles env next_url (before ++ art :: after) st
      = (Ok (rows_before ++ it :: rows_after), st3)
    ∧ degraded_item env next_url art a it
    ∧ ∀ page_count st0 soup,
        retry_get env next_url st0 = (Ok (Some soup), st) →
        articles soup = before ++ art :: after →
        let st' := (crawl_page env page_count next_url st0).2 in
        (∃ ok, EAppend (rows_before ++ it :: rows_after) ok ∈ trace st')
        ∧ (append_fault env (appends st3) = None →
           ∃ t, csv st' = Some t ∧ item_line env it ∈ t).
Proof.
  intros L J F.
  destruct (scrape_articles_ok env next_url before st) as (rb & st1 & Eb & _).
  destruct (scrape_article_degraded env next_url art a product_url st1 L J F)
    as (it & st2 & Ea & D).
  destruct (scrape_articles_ok env next_url after st2) as (ra & st3 & Ec & _).
  exists rb, it, ra, st1, st2, st3.
  assert (E : scrape_articles env next_url (before ++ art :: after) st
              = (Ok (rb ++ it :: ra), st3)).
  { apply (scrape_articles_app env _ _ _ _ _ _ _ _ Eb).
    simpl. by rewrite bind_run, Ea, bind_run, Ec. }
  do 5 (split; [done|]).
  intros page_count st0 soup E0 Earts st'. subst st'.
  rewrite (crawl_page_steps env page_count _ _ _ _ _ _ E0)
    by (by rewrite Earts).
  assert (P : (∃ ok, EAppend (rb ++ it :: ra) ok
                       ∈ trace (append_page env (rb ++ it :: ra)
                                  page_count st3).2)
              ∧ (append_fault env (appends st3) = None →
                 ∃ t, csv (append_page env (rb ++ it :: ra)
                             page_count st3).2 = Some t
                      ∧ item_line env it ∈ t)).
  { rewrite append_page_run. cbn [snd]. split.
    - destruct (append_fault env (appends st3)); simpl; eexists;
        rewrite !elem_of_app, !elem_of_cons; eauto.
    - intros ->. simpl. eexists. split; [done|].
      rewrite fmap_app, fmap_cons, !elem_of_app, elem_of_cons. auto. }
  destruct P as [(ok & Hin) Hcsv].
  destruct (next_cursor env next_url soup) as [cursor|e]; cbn [snd];
    [|by eauto].
  rewrite save_checkpoint_run. cbn [snd trace csv]. split; [|done].
  exists ok. apply elem_of_app. by left.
Qed.

(** C6 on the second book of the shop, whose detail page is missing. *)
Lemma partial_enrichment_witness :
  ∃ rows_before it rows_after st1 st2 st3,
    scrape_articles env_shop "page-2.html" [] fresh = (Ok rows_before, st1)
    ∧ scrape_article env_shop "page-2.html"
        (book "Tipping the Velvet" "b.html") st1 = (Ok [it], st2)
    ∧ scrape_articles env_shop "page-2.html" [] st2 = (Ok rows_after, st3)
    ∧ scrape_articles env_shop "page-2.html"
        ([] ++ book "Tipping the Velvet" "b.html" :: []) fresh
      = (Ok (rows_before ++ it :: rows_after), st3)
    ∧ degraded_item env_shop "page-2.html"
        (book "Tipping the Velvet" "b.html")
        {| a_title := Some "Tipping the Velvet";
           a_text := "Tipping the Velvet"; a_href := Some "b.html" |} it
    ∧ ∀ page_count st0 soup,
        retry_get env_shop "page-2.html" st0 = (Ok (Some soup), fresh) →
        articles soup = [] ++ book "Tipping the Velvet" "b.html" :: [] →
        let st' := (crawl_page env_shop page_count "page-2.html" st0).2 in
        (∃ ok, EAppend (rows_before ++ it :: rows_after) ok ∈ trace st')
        ∧ (append_fault env_shop (appends st3) = None →
           ∃ t, csv st' = Some t ∧ item_line env_shop it ∈ t).
Proof.
  apply (partial_enrichment env_shop "page-2.html" []
           (book "Tipping the Velvet" "b.html") _ "b.html").
  - reflexivity.
  - reflexivity.
  - intros n. simpl. lia.
Defined.

(** ** Start and restart *)

Lemma load_checkpoint_run st :
  load_checkpoint st = (Ok (loaded (checkpoint st)), st).
Proof.
  unfold load_checkpoint, IO.try_except, IO.lift, IO.get_checkpoint.
  rewrite bind_run. by destruct (checkpoint st).
Qed.

Lemma start_url_root f :
  names_no_page f → start_url (loaded f) = Ok (JStr BASE_URL).
Proof.
  unfold start_url.
  intros [->|[->|[->|(m & -> & H)]]]; simpl; rewrite ?lookup_empty; try done.
  by destruct H as [->|[->| ->]].
Qed.

Lemma ensure_csv_header_present env names st t :
  csv st = Some t → ensure_csv_header env names st = (Ok tt, st).
Proof.
  intros H. unfold ensure_csv_header, IO.get_csv. rewrite bind_run.
  by rewrite H.
Qed.

(** The three outcomes of [ensure_csv_header]. *)
Lemma ensure_csv_header_run env names st :
  ensure_csv_header env names st
  = match csv st, header_fault env with
    | Some _, _ => (Ok tt, st)
    | None, SaveOk =>
        (Ok tt,
         {| requests := requests st; appends := appends st;
            saves := saves st; csv := Some [names];
            checkpoint := checkpoint st; trace := trace st |})
    | None, SaveOpenFails => (Raise OSError, st)
    | None, SaveWriteFails =>
        (Raise OSError,
         {| requests := requests st; appends := appends st;
            saves := saves st; csv := Some [];
            checkpoint := checkpoint st; trace := trace st |})
    end.
Proof.
  unfold ensure_csv_header, IO.get_csv, IO.set_csv, IO.lift.
  rewrite bind_run. destruct (csv st); [done|].
  by destruct (header_fault env).
Qed.

Lemma ensure_csv_header_any env names st :
  ∃ r st', ensure_csv_header env names st = (r, st')
           ∧ checkpoint st' = checkpoint st ∧ trace st' = trace st.
Proof.
  rewrite ensure_csv_header_run.
  destruct (csv st); [by eexists _, _|].
  destruct (header_fault env); by eexists _, _.
Qed.

Lemma ensure_csv_header_keeps env names st :
  header_ready env st →
  ∃ st', ensure_csv_header env names st = (Ok tt, st')
         ∧ checkpoint st' = checkpoint st ∧ trace st' = trace st.
Proof.
  intros H. rewrite ensure_csv_header_run.
  destruct (csv st) as [t|] eqn:E; [by eexists|].
  destruct H as [H|F]; [done|]. rewrite F. by eexists.
Qed.

(** Once the start is known to be a text, [scrape] is the crawl from it. *)
Lemma scrape_resolved env fuel st next_url :
  start_url (loaded (checkpoint st)) = Ok (JStr next_url) →
  scrape env fuel st = scrape_from env fuel next_url st.
Proof.
  intros H. unfold scrape, scrape_from. rewrite !bind_run.
  destruct (ensure_csv_header_any env fieldnames st)
    as ([u|e] & st' & -> & C & _); [destruct u|done].
  rewrite bind_run, load_checkpoint_run, C. unfold IO.lift.
  rewrite bind_run, H. done.
Qed.

(** The first thing a crawl does is to ask for its start. *)
Lemma crawl_loop_first env fuel page_count next_url st :
  next_url ≠ "" →
  ∃ more, trace (crawl_loop env (S fuel) page_count next_url st).2
          = trace st ++ EGet next_url :: more.
Proof.
  intros N. cbn [crawl_loop].
  rewrite (proj2 (truthy_ne next_url) N). cbn [negb]. rewrite bind_run.
  destruct (retry_attempts_sends env 1 [2; 3]%nat next_url st) as [m1 T1].
  change (retry_attempts env (1 :: [2; 3])%nat next_url)
    with (retry_get env next_url) in T1.
  assert (P : ∃ r st1 m2,
             crawl_page env (S page_count) next_url st = (r, st1)
             ∧ trace st1 = trace st ++ EGet next_url :: m2).
  { destruct (retry_get_fetch_only env next_url st)
      as ([soup|] & s1 & E1 & F1); rewrite E1 in T1; simpl in T1.
    - destruct (scrape_articles_ok env next_url (articles soup) s1)
        as (rows & s2 & E2 & F2).
      rewrite (crawl_page_steps env _ _ _ _ _ _ _ E1 E2).
      destruct (next_cursor env next_url soup) as [cursor|e].
      + destruct (crawl_effect_trans _ _ _ (fetch_only_effect _ _ F2)
                    (persist_effect env rows (S page_count)
                       (checkpoint_of cursor) s2))
          as [(evs & T & _) _].
        eexists _, _, _. split; [done|]. by rewrite T, T1, <- app_assoc.
      + destruct (crawl_effect_trans _ _ _ (fetch_only_effect _ _ F2)
                    (append_effect env rows (S page_count) s2))
          as [(evs & T & _) _].
        eexists _, _, _. split; [done|]. by rewrite T, T1, <- app_assoc.
    - rewrite (crawl_page_failed env _ _ _ _ E1). by eexists _, _, _. }
  destruct P as (r & st1 & m2 & -> & T2).
  destruct r as [[next_url'|]|e]; [|by eexists..].
  destruct (crawl_loop_effect env fuel (S page_count) next_url' st1)
    as (r & st2 & -> & (evs & T & _) & _).
  simpl. rewrite T, T2, <- app_assoc. by eexists.
Qed.

Lemma scrape_from_first env fuel next_url st :
  next_url ≠ "" →
  header_ready env st →
  ∃ more, trace (scrape_from env (S fuel) next_url st).2
          = trace st ++ EGet next_url :: more.
Proof.
  intros N R. unfold scrape_from. rewrite bind_run.
  destruct (ensure_csv_header_keeps env fieldnames st R)
    as (st' & -> & _ & T0).
  rewrite bind_run.
  destruct (crawl_loop_first env fuel O next_url st' N) as [more T1].
  destruct (crawl_loop_effect env (S fuel) O next_url st')
    as (r & st1 & E & _).
  rewrite E in T1 |- *. simpl in T1. destruct r as [ended|e]; [destruct ended|].
  - rewrite bind_run, deduplicate_csv_run. simpl.
    rewrite T1, T0, <- app_assoc. by eexists.
  - simpl. rewrite T1, T0. by eexists.
  - simpl. rewrite T1, T0. by eexists.
Qed.

(** Without products.csv and without a way to create it, [scrape] ends
    in [ensure_csv_header], before it looks at the checkpoint. *)
Lemma scrape_header_fails env fuel st :
  ¬ header_ready env st →
  ∃ st', scrape env fuel st = (Raise OSError, st')
         ∧ requests st' = requests st ∧ checkpoint st' = checkpoint st
         ∧ trace st' = trace st.
Proof.
  unfold header_ready. intros H. unfold scrape.
  rewrite bind_run, ensure_csv_header_run.
  destruct (csv st); [destruct H; by left|].
  destruct (header_fault env); [destruct H; by right|by eexists..].
Qed.

(** C10.  When checkpoint.json is absent, unreadable or not JSON,
    [load_checkpoint] returns the empty record and does not raise; from that
    record, and from any record whose next_url is absent, null or empty,
    the start resolves to BASE_URL, [scrape] is the crawl from BASE_URL, and
    its first request, made once products.csv is there, goes to BASE_URL.
    Only when products.csv is missing and cannot be created is no request
    made: [scrape] has raised before it loads the checkpoint. *)
Theorem checkpoint_fallback env fuel st :
  names_no_page (checkpoint st) →
  (checkpoint st = CkAbsent ∨ checkpoint st = CkUnreadable
   ∨ checkpoint st = CkInvalid →
   load_checkpoint st = (Ok (JObj ∅), st))
  ∧ (∃ v, load_checkpoint st = (Ok v, st)
          ∧ start_url v = Ok (JStr BASE_URL))
  ∧ scrape env fuel st = scrape_from env fuel BASE_URL st
  ∧ (header_ready env st →
     ∃ more, trace (scrape env (S fuel) st).2
             = trace st ++ EGet BASE_URL :: more)
  ∧ (¬ header_ready env st →
     ∃ st', scrape env (S fuel) st = (Raise OSError, st')
            ∧ trace st' = trace st).
Proof.
  intros H. pose proof (start_url_root _ H) as R.
  split; [|split; [|split; [|split]]].
  - rewrite load_checkpoint_run. by intros [->|[->| ->]].
  - exists (loaded (checkpoint st)). by rewrite load_checkpoint_run.
  - by apply scrape_resolved.
  - intros Hr. rewrite (scrape_resolved env (S fuel) st BASE_URL R).
    by apply scrape_from_first.
  - intros Hn.
    destruct (scrape_header_fails env (S fuel) st Hn) as (st' & E & _ & _ & T).
    by exists st'.
Qed.

(** C10 on a first run: no checkpoint.json yet. *)
Lemma checkpoint_fallback_witness :
  (checkpoint fresh = CkAbsent ∨ checkpoint fresh = CkUnreadable
   ∨ checkpoint fresh = CkInvalid →
   load_checkpoint fresh = (Ok (JObj ∅), fresh))
  ∧ (∃ v, load_checkpoint fresh = (Ok v, fresh)
          ∧ start_url v = Ok (JStr BASE_URL))
  ∧ scrape env_shop 5 fresh = scrape_from env_shop 5 BASE_URL fresh
  ∧ ∃ more, trace (scrape env_shop 6 fresh).2
            = trace fresh ++ EGet BASE_URL :: more.
Proof.
  destruct (checkpoint_fallback env_shop 5 fresh) as (A & B & C & D & _).
  { left. reflexivity. }
  split; [exact A|]. split; [exact B|]. split; [exact C|].
  apply D. right. reflexivity.
Defined.

(** C5 as the specification words it fails: the shop is crawled to its end,
    the checkpoint left is the terminal one, and the second run fetches both
    pages again and appends their rows before the deduplication removes
    them. *)
Lemma rerun_fetches_again_counterexample :
  let finished := (scrape env_shop 5 fresh).2 in
  (scrape env_shop 5 fresh).1 = Ok true
  ∧ checkpoint finished = CkJson (checkpoint_of JNull)
  ∧ (scrape env_shop 5 finished).1 = Ok true
  ∧ requests (scrape env_shop 5 finished).2 = (requests finished + 6)%nat
  ∧ trace (scrape env_shop 5 finished).2
    = trace finished
      ++ [EGet BASE_URL; ESleep; EGet "a.html"; ESleep; ESleep;
          EAppend [first_book] true; EPrint 1 1;
          ESave (checkpoint_of (JStr "page-2.html")) true;
          EGet "page-2.html"; ESleep;
          EGet "b.html"; ESleep; EGet "b.html"; ESleep; EGet "b.html"; ESleep;
          EAppend [second_book] true; EPrint 1 2;
          ESave (checkpoint_of JNull) true;
          EDedup].
Proof. by vm_compute. Qed.

(** C5, as the code has it.  With the terminal checkpoint (next_url null)
    [scrape] is the crawl from BASE_URL again and its first request goes
    there.  Running the deduplication on a deduplicated file changes
    nothing.  A second run over a deduplicated store that ends leaves the
    store as it was when every line it appended has an empty title or a
    title the store already had, and the deduplication can read the
    store; when it cannot, the appended lines stay. *)
Theorem resume_restarts_from_root :
  (∀ env fuel st,
     checkpoint st = CkJson (checkpoint_of JNull) →
     scrape env fuel st = scrape_from env fuel BASE_URL st
     ∧ (header_ready env st →
        ∃ more, trace (scrape env (S fuel) st).2
                = trace st ++ EGet BASE_URL :: more)
     ∧ (¬ header_ready env st →
        ∃ st', scrape env (S fuel) st = (Raise OSError, st')
               ∧ trace st' = trace st))
  ∧ (∀ key_field names t,
       dedup_table key_field names (dedup_table key_field names t)
       = dedup_table key_field names t)
  ∧ (∀ env fuel st kept,
       checkpoint st = CkJson (checkpoint_of JNull) →
       csv st = Some (fieldnames :: kept) →
       deduplicated "title" fieldnames kept →
       ∃ new,
         csv (crawl_loop env fuel 0 BASE_URL st).2
         = Some (fieldnames :: kept ++ new)
         ∧ ((scrape env fuel st).1 = Ok true →
            readable env (fieldnames :: kept ++ new) →
            writable env →
            (∀ l k, l ∈ new → key_of "title" fieldnames l = Some k →
                    k = "" ∨ Some k ∈ key_of "title" fieldnames <$> kept) →
            csv (scrape env fuel st).2 = Some (fieldnames :: kept))
         ∧ ((scrape env fuel st).1 = Ok true →
            ¬ readable env (fieldnames :: kept ++ new) →
            csv (scrape env fuel st).2 = Some (fieldnames :: kept ++ new))).
Proof.
  assert (R : ∀ st, checkpoint st = CkJson (checkpoint_of JNull) →
                    start_url (loaded (checkpoint st)) = Ok (JStr BASE_URL)).
  { intros st ->. by vm_compute. }
  split; [|split].
  - intros env fuel st H. split; [by apply scrape_resolved, R|]. split.
    + intros Hr. rewrite (scrape_resolved env (S fuel) st BASE_URL (R st H)).
      by apply scrape_from_first.
    + intros Hn.
      destruct (scrape_header_fails env (S fuel) st Hn)
        as (st' & E & _ & _ & T).
      by exists st'.
  - apply dedup_idempotent.
  - intros env fuel st kept H Hcsv D.
    destruct (crawl_loop_effect env fuel O BASE_URL st)
      as (r & st' & E & _ & G).
    destruct (G _ Hcsv) as [new Hnew]. exists new. rewrite E. simpl.
    split; [done|].
    rewrite (scrape_resolved env fuel st BASE_URL (R st H)).
    unfold scrape_from.
    rewrite bind_run, (ensure_csv_header_present _ _ _ _ Hcsv), bind_run, E.
    destruct r as [ended|e]; [destruct ended|]; [|done..].
    rewrite bind_run, deduplicate_csv_run. simpl. rewrite Hnew. simpl.
    split.
    + intros _ Hr Hw X. rewrite deduped_readable by done.
      by rewrite dedup_absorbs.
    + intros _ Hu. by rewrite deduped_unreadable.
Qed.

(** C5 on the shop: the second run starts from BASE_URL again, and the
    store it leaves is the store of the first run. *)
Lemma resume_restarts_from_root_witness :
  let finished := (scrape env_shop 5 fresh).2 in
  scrape env_shop 5 finished = scrape_from env_shop 5 BASE_URL finished
  ∧ csv (scrape env_shop 5 finished).2 = csv finished.
Proof.
  intros finished.
  pose (kept := [item_line env_shop first_book; item_line env_shop second_book]).
  assert (C : checkpoint finished = CkJson (checkpoint_of JNull))
    by (by vm_compute).
  assert (S : csv finished = Some (fieldnames :: kept)) by (by vm_compute).
  assert (N : NoDup fieldnames)
    by (apply (bool_decide_unpack _); by vm_compute).
  assert (D : deduplicated "title" fieldnames kept).
  { repeat split.
    - repeat constructor; by apply record_uniform.
    - repeat constructor; eexists; (split; [by vm_compute|done]).
    - apply (bool_decide_unpack _). by vm_compute. }
  destruct resume_restarts_from_root as (H1 & _ & H3).
  split; [by apply (H1 env_shop 5%nat finished C)|].
  destruct (H3 env_shop 5%nat finished kept C S D) as (new & Hnew & H & _).
  rewrite S.
  assert (new = kept) as ->.
  { vm_compute in Hnew. injection Hnew as <-. done. }
  apply H; [by vm_compute|split; reflexivity|reflexivity|].
  intros l k Hl Hk. right. rewrite <- Hk. by apply list_elem_of_fmap_2.
Defined.


(** * Further properties of the code *)

(** ** Prices and ratings *)

(** X1.  Characters that are neither digits nor dots do not count, wherever
    they stand: a price text with such characters put into it parses, in
    both scripts, to what it parsed to without them. *)
Theorem parse_price_ignores_junk s1 junk s2 :
  Text.all (λ c, negb (numeric_char c)) junk = true →
  Scraper.parse_price (s1 ++ junk ++ s2)%string
  = Scraper.parse_price (s1 ++ s2)%string
  ∧ BooksScraper.parse_price (s1 ++ junk ++ s2)%string
    = BooksScraper.parse_price (s1 ++ s2)%string.
Proof.
  intros J.
  assert (E : strip_non_numeric (s1 ++ junk ++ s2)%string
              = strip_non_numeric (s1 ++ s2)%string).
  { by rewrite !strip_non_numeric_app, (strip_non_numeric_junk _ J). }
  destruct (parse_price_value (s1 ++ junk ++ s2)%string) as [-> ->].
  destruct (parse_price_value (s1 ++ s2)%string) as [-> ->].
  by rewrite E.
Qed.

(** X1 on a price with a thousands separator. *)
Lemma parse_price_ignores_junk_witness :
  Scraper.parse_price ("£1" ++ "," ++ "234.50")%string
  = Scraper.parse_price ("£1" ++ "234.50")%string
  ∧ BooksScraper.parse_price ("£1" ++ "," ++ "234.50")%string
    = BooksScraper.parse_price ("£1" ++ "234.50")%string.
Proof. apply parse_price_ignores_junk. reflexivity. Defined.

Lemma digits_value_nonneg s acc :
  0 ≤ acc → Text.all Text.is_digit s = true → 0 ≤ Float.digits_value acc s.
Proof.
  revert acc. induction s as [|c s IH]; intros acc Ha; simpl; [done|].
  intros [Hc Hs]%andb_prop. apply IH; [|done].
  assert (0 ≤ Float.digit_value c); [|lia].
  unfold Float.digit_value, Text.is_digit in *.
  apply andb_prop in Hc as [Hc _]. apply Nat.leb_le in Hc. lia.
Qed.

Lemma all_digit_app s1 s2 :
  Text.all Text.is_digit s1 = true → Text.all Text.is_digit s2 = true →
  Text.all Text.is_digit (s1 ++ s2)%string = true.
Proof.
  induction s1 as [|c s1 IH]; [done|]. simpl.
  intros [-> H1]%andb_prop H2. simpl. by apply IH.
Qed.

Lemma float_nonneg s v : Float.float s = Ok v → (0 <= v)%Q.
Proof.
  unfold Float.float. destruct (Float.split_dot s) as [i f].
  destruct (Text.all Text.is_digit i) eqn:Di; [|done].
  destruct (Text.all Text.is_digit (default "" f)) eqn:Df; [|done].
  simpl. destruct (negb _); [|done]. intros [= <-].
  rewrite Qred_correct. unfold Qle. simpl. rewrite Z.mul_1_r.
  apply digits_value_nonneg; [done|]. by apply all_digit_app.
Qed.

(** X2.  A parsed price is never negative: a minus sign is dropped with the
    other characters, so "-5.00" parses to 5.0. *)
Theorem parse_price_never_negative :
  (∀ s, ∃ v, Scraper.parse_price s = Ok v
             ∧ BooksScraper.parse_price s = Ok v ∧ (0 <= v)%Q)
  ∧ Scraper.parse_price "-5.00" = Ok 5%Q
  ∧ BooksScraper.parse_price "-5.00" = Ok 5%Q.
Proof.
  split; [|by vm_compute].
  intros s. destruct (parse_price_value s) as [HS HB].
  eexists. split; [exact HS|]. split; [exact HB|].
  destruct (Float.float (strip_non_numeric s)) as [v|e] eqn:F; [|done].
  by eapply float_nonneg.
Qed.

Lemma parse_rating_same capitalize classes :
  capitalizes_ascii capitalize →
  Forall (λ cls, Text.strip cls = cls) classes →
  Scraper.parse_rating capitalize classes
  = BooksScraper.parse_rating capitalize classes.
Proof.
  intros C. induction 1 as [|cls rest Hs _ IH]; [done|]. simpl. rewrite Hs.
  destruct cls as [|c cls']; [done|]. simpl Text.truthy. cbn [negb andb].
  set (cls := String c cls') in *.
  destruct (RATING_MAP !! cls) as [v|] eqn:E1.
  - destruct (label_plain _ _ E1) as (A & Ec & _ & Ne & _).
    rewrite (proj2 (String.eqb_neq _ _) Ne), (C _ A), Ec, E1. done.
  - destruct (RATING_MAP !! capitalize cls) as [v|] eqn:E2.
    + destruct (String.eqb_spec cls "star-rating") as [Es|]; [|done].
      rewrite Es, C in E2 by reflexivity. by vm_compute in E2.
    + by destruct (negb (cls =? "star-rating")%string).
Qed.

(** X3.  On classes without white space around them, as BeautifulSoup gives
    them, the rating parsers of the two scripts agree.  With white space
    they differ: scraper.py strips it, a no-break space as well as a
    space, and books_scraper.py does not. *)
Theorem parse_rating_agree capitalize :
  capitalizes_ascii capitalize →
  (∀ classes,
     Forall (λ cls, Text.strip cls = cls) classes →
     Scraper.parse_rating capitalize classes
     = BooksScraper.parse_rating capitalize classes)
  ∧ Scraper.parse_rating capitalize [" Three "] = 3
  ∧ BooksScraper.parse_rating capitalize [" Three "] = 0
  ∧ Scraper.parse_rating capitalize [(nbsp ++ "Three")%string] = 3.
Proof.
  intros C. split; [intros classes; by apply parse_rating_same|].
  split; [by vm_compute|]. split; [|by vm_compute].
  cbn [BooksScraper.parse_rating]. rewrite (C " Three ") by reflexivity.
  by vm_compute.
Qed.

(** X3 on the classes of a rating tag of the site. *)
Lemma parse_rating_agree_witness :
  Scraper.parse_rating Text.capitalize_ascii ["star-rating"; "Four"]
  = BooksScraper.parse_rating Text.capitalize_ascii ["star-rating"; "Four"].
Proof.
  apply (proj1 (parse_rating_agree Text.capitalize_ascii
                  ltac:(by intros s _))).
  repeat constructor.
Defined.

(** ** The number of reviews *)

Lemma reviews_skip env row later :
  review_row row = false →
  reviews_in_rows env (row :: later) = reviews_in_rows env later.
Proof.
  unfold review_row. simpl.
  destruct (th row) as [h|]; [|done]. destruct (td row) as [t|]; [|done].
  by intros ->.
Qed.

(** X4.  [extract_number_of_reviews] gives -1, the unknown, when the page
    has no product table or no line of it has "review" in its header.
    Otherwise the first such line decides, whatever follows it: the number
    its cell holds, or -1 when the cell is not a number. *)
Theorem reviews_first_row_decides env soup :
  (info_table soup = None → extract_number_of_reviews env soup = -1)
  ∧ (∀ rows, info_table soup = Some rows →
       Forall (λ r, review_row r = false) rows →
       extract_number_of_reviews env soup = -1)
  ∧ (∀ before row after header text,
       info_table soup = Some (before ++ row :: after) →
       Forall (λ r, review_row r = false) before →
       th row = Some header → td row = Some text →
       Text.contains "review" (Text.lower header) = true →
       extract_number_of_reviews env soup
       = default (-1) (int_of_text env text)).
Proof.
  unfold extract_number_of_reviews. split; [by intros ->|]. split.
  - intros rows -> H. induction H as [|r rows Hr _ IH]; [done|].
    by rewrite reviews_skip.
  - intros before row after header text -> H Eh Et C.
    induction H as [|r rows Hr _ IH]; simpl app.
    + simpl. by rewrite Eh, Et, C.
    + by rewrite reviews_skip.
Qed.

(** X4 on the detail page of the shop, and on a page without table. *)
Lemma reviews_first_row_decides_witness :
  extract_number_of_reviews env_shop shop_detail = 3
  ∧ extract_number_of_reviews env_shop blank_page = -1.
Proof.
  destruct (reviews_first_row_decides env_shop shop_detail) as (_ & _ & H).
  destruct (reviews_first_row_decides env_shop blank_page) as (H0 & _).
  split; [|by apply H0].
  apply (H [ {| th := Some "UPC"; td := Some "a897fe39b1053632" |} ]
           {| th := Some "Number of reviews"; td := Some "3" |} []
           "Number of reviews" "3"); try reflexivity.
  by repeat constructor.
Defined.


(** ** The fetcher, attempt by attempt *)


(** ** The checkpoint store *)

Lemma start_url_saved url :
  url ≠ "" → start_url (checkpoint_of (JStr url)) = Ok (JStr url).
Proof.
  intros N. unfold start_url, checkpoint_of, json_get. simpl.
  rewrite lookup_singleton_eq. simpl. unfold py_or. simpl.
  by rewrite (proj2 (truthy_ne url) N).
Qed.

(** X6.  What [save_checkpoint] writes, [load_checkpoint] reads back; the
    store is not touched.  When the record written names a page, the next
    run of [scrape] is the crawl from that page, and its first request,
    made once products.csv is there, goes to that page: the pages before it
    are not fetched again. *)
Theorem checkpoint_round_trip env data st :
  save_faults env (saves st) = SaveOk →
  ∃ st',
    save_checkpoint env data st = (Ok tt, st')
    ∧ load_checkpoint st' = (Ok data, st')
    ∧ csv st' = csv st
    ∧ ∀ url, data = checkpoint_of (JStr url) → url ≠ "" →
        ∀ env' fuel,
          scrape env' fuel st' = scrape_from env' fuel url st'
          ∧ (header_ready env' st' →
             ∃ more, trace (scrape env' (S fuel) st').2
                     = trace st' ++ EGet url :: more).
Proof.
  intros F. rewrite save_checkpoint_run, F. eexists. split; [done|].
  rewrite load_checkpoint_run. simpl. split; [done|]. split; [done|].
  intros url -> N env' fuel.
  assert (R : ∀ st', checkpoint st' = CkJson (checkpoint_of (JStr url)) →
                start_url (loaded (checkpoint st')) = Ok (JStr url)).
  { intros st' ->. by apply start_url_saved. }
  split; [by apply scrape_resolved, R|].
  intros Hr. rewrite (scrape_resolved env' (S fuel) _ url) by by apply R.
  by apply scrape_from_first.
Qed.

(** X6 on the checkpoint of the first page of the shop. *)
Lemma checkpoint_round_trip_witness :
  ∃ st',
    save_checkpoint env_shop (checkpoint_of (JStr "page-2.html")) fresh
    = (Ok tt, st')
    ∧ load_checkpoint st' = (Ok (checkpoint_of (JStr "page-2.html")), st')
    ∧ csv st' = csv fresh
    ∧ ∀ url, checkpoint_of (JStr "page-2.html") = checkpoint_of (JStr url) →
        url ≠ "" →
        ∀ env' fuel,
          scrape env' fuel st' = scrape_from env' fuel url st'
          ∧ (header_ready env' st' →
             ∃ more, trace (scrape env' (S fuel) st').2
                     = trace st' ++ EGet url :: more).
Proof. apply checkpoint_round_trip. reflexivity. Defined.

(** ** When [scrape] raises *)





(** ** Deduplication, on any file *)

Lemma deduplicated_not_blank key_field names kept l :
  deduplicated key_field names kept → l ∈ kept → l ≠ [].
Proof.
  intros (_ & Ks & _) Hl ->. eapply Forall_forall in Ks; [|done].
  destruct Ks as (k & E & _). by rewrite key_of_blank in E.
Qed.

(** X8.  Whatever products.csv held, when [deduplicate_csv] can read it
    the file it leaves has the field names as its header and at most one
    row for each key: the rows read back from it have keys that differ two
    by two.  When it cannot read the file, the file stays as it was. *)
Theorem dedup_keys_distinct env key_field names st t :
  csv st = Some t →
  (readable env t → writable env →
   ∃ kept,
     csv (deduplicate_csv env key_field names st).2 = Some (names :: kept)
     ∧ Csv.dict_reader (names :: kept) = Csv.read_row names <$> kept
     ∧ NoDup (Csv.get key_field <$> Csv.dict_reader (names :: kept)))
  ∧ (¬ readable env t →
     csv (deduplicate_csv env key_field names st).2 = Some t).
Proof.
  intros Hcsv.
  assert (Run : csv (deduplicate_csv env key_field names st).2
                = Some (deduped env key_field names t)).
  { rewrite deduplicate_csv_run. simpl. by rewrite Hcsv. }
  rewrite Run. clear Run.
  split; [|intros U; by rewrite deduped_unreadable].
  intros R W. rewrite deduped_readable by done.
  destruct (dedup_shape key_field names t) as (kept & E & D).
  exists kept. split; [by rewrite E|].
  assert (F : Csv.dict_reader (names :: kept) = Csv.read_row names <$> kept).
  { unfold Csv.dict_reader. f_equal.
    assert (B : ∀ l, l ∈ kept → l ≠ [])
      by (intros l; by eapply deduplicated_not_blank).
    clear D E. induction kept as [|l kept IH]; [done|].
    rewrite filter_cons_True by (apply B; left).
    f_equal. apply IH. intros l' ?. apply B. by right. }
  rewrite F. split; [done|].
  rewrite <- list_fmap_compose. by destruct D as (_ & _ & ND).
Qed.

(** X8 on a file with a repeated key, an empty key and a blank line. *)
Lemma dedup_keys_distinct_witness :
  ∃ kept,
    csv (deduplicate_csv env_shop "key" ["key"; "v"]
           (with_csv [["key"; "v"]; ["A"; "1"]; []; [""; "2"]; ["A"; "3"]])).2
    = Some (["key"; "v"] :: kept)
    ∧ Csv.dict_reader (["key"; "v"] :: kept)
      = Csv.read_row ["key"; "v"] <$> kept
    ∧ NoDup (Csv.get "key" <$> Csv.dict_reader (["key"; "v"] :: kept)).
Proof.
  apply (proj1 (dedup_keys_distinct env_shop "key" ["key"; "v"]
                  (with_csv [["key"; "v"]; ["A"; "1"]; []; [""; "2"];
                             ["A"; "3"]])
                  [["key"; "v"]; ["A"; "1"]; []; [""; "2"]; ["A"; "3"]]
                  eq_refl)).
  - split; reflexivity.
  - reflexivity.
Defined.

Lemma kept_from_no_key key_field hdr seen lines :
  key_field ∉ hdr → kept_from key_field hdr seen lines = [].
Proof.
  intros N. induction lines as [|l lines IH]; [done|]. simpl.
  unfold key_of. by rewrite get_read_missing.
Qed.

(** X9.  When the first line of products.csv does not name the key field,
    no row has a key and [deduplicate_csv] leaves the header alone in the
    file: every row is lost.  So it goes with a products.csv that is there
    but empty when [scrape] starts: the header is not written, the first
    row appended is read as the header, and the crawl of the shop ends with
    a store that holds no book. *)
Theorem dedup_without_key_column :
  (∀ key_field names hdr lines,
     key_field ∉ hdr →
     dedup_table key_field names (hdr :: lines) = [names])
  ∧ csv (scrape env_shop 5 (with_csv [])).2 = Some [fieldnames].
Proof.
  split; [|by vm_compute].
  intros key_field names hdr lines N.
  by rewrite dedup_table_kept, kept_from_no_key.
Qed.

(** X9 on a file whose header has another name for the key. *)
Lemma dedup_without_key_column_witness :
  dedup_table "title" ["title"; "price"]
    [["name"; "price"]; ["A Light in the Attic"; "51.77"]]
  = [["title"; "price"]].
Proof.
  apply (proj1 dedup_without_key_column).
  apply (bool_decide_unpack _). by vm_compute.
Defined.

Section LongRow.

Variables (key_field : string) (names : list string).

Local Abbreviation K := (key_of key_field names).

Lemma kept_from_app seen l1 l2 :
  kept_from key_field names seen (l1 ++ l2)
  = kept_from key_field names seen l1
    ++ kept_from key_field names
         (seen ++ ((λ l, default "" (K l))
                     <$> kept_from key_field names seen l1)) l2.
Proof.
  revert seen. induction l1 as [|l l1 IH]; intros seen.
  { simpl. by rewrite app_nil_r. }
  simpl. destruct (K l) as [k|] eqn:E; [|apply IH].
  destruct (Text.truthy k && negb (bool_decide (k ∈ seen))); [|apply IH].
  simpl. rewrite IH, E. simpl. by rewrite <- app_assoc.
Qed.

Lemma writerows_stop rows r later :
  (Csv.writerows names rows).2 = true →
  Csv.rest r ≠ None →
  Csv.writerows names (rows ++ r :: later) = ((Csv.writerows names rows).1, false).
Proof.
  intros Hok Hr. induction rows as [|r0 rows IH]; simpl in *.
  - unfold Csv.writerow. rewrite (bool_decide_eq_false_2 (Csv.rest r = None))
      by done. by rewrite andb_false_r.
  - destruct (Csv.writerow names r0) as [l|e]; [|done].
    destruct (Csv.writerows names rows) as [ls ok]. simpl in *.
    by rewrite IH.
Qed.

(** X10.  A line with more cells than the header has names stops the
    rewriting: when such a line brings a new key, [writerow] refuses it
    with [ValueError], and the file is left with the rows kept before it.
    The line itself and every row after it are lost. *)
Theorem dedup_stops_at_long_row before long after :
  NoDup names →
  Forall (λ l, length l = length names) before →
  (length names < length long)%nat →
  usable_key (K long) →
  (∀ l, l ∈ before → K l ≠ K long) →
  dedup_table key_field names (names :: before ++ long :: after)
  = names :: kept_from key_field names [] before.
Proof.
  intros ND Hb Hlong (k & Ek & Nk) Hnew.
  rewrite dedup_table_kept, kept_from_app. simpl app.
  assert (U : Forall (uniform names) (kept_from key_field names [] before)).
  { apply Forall_forall. intros l Hin. apply record_uniform; [done|].
    eapply Forall_forall in Hb; [done|].
    eapply elem_of_sublist; [done|apply kept_sublist]. }
  cbn [kept_from]. rewrite Ek.
  assert (T : Text.truthy k
              && negb (bool_decide
                         (k ∈ (λ l, default "" (K l))
                                <$> kept_from key_field names [] before))
              = true).
  { apply takes_iff. split; [done|].
    intros (l & El & Hl)%list_elem_of_fmap.
    destruct (kept_keys _ _ _ _ _ Hl) as (k' & Ek' & _).
    apply (Hnew l); [eapply elem_of_sublist; [done|apply kept_sublist]|].
    rewrite Ek, Ek'. rewrite Ek' in El. simpl in El. by subst. }
  rewrite T, fmap_app, fmap_cons.
  rewrite writerows_stop; [by rewrite writerows_read_uniform| |].
  - by rewrite writerows_read_uniform.
  - unfold Csv.read_row. simpl.
    by rewrite (proj2 (Nat.ltb_lt _ _) Hlong).
Qed.

End LongRow.

(** X10 on a store whose second row has a cell too many. *)
Lemma dedup_stops_at_long_row_witness :
  dedup_table "key" ["key"; "v"]
    (["key"; "v"] :: [["A"; "1"]] ++ ["B"; "2"; "x"] :: [["C"; "3"]])
  = ["key"; "v"] :: kept_from "key" ["key"; "v"] [] [["A"; "1"]].
Proof.
  apply dedup_stops_at_long_row.
  - apply (bool_decide_unpack _). by vm_compute.
  - by repeat constructor.
  - simpl. lia.
  - exists "B". split; [by vm_compute|done].
  - intros l ->%list_elem_of_singleton. by vm_compute.
Defined.

(** ** The crawl, page by page *)

(** X11.  When the listing page [scrape] starts from cannot be fetched, the
    loop ends at once: three requests, no append and no save.  The
    checkpoint is left as it was, so the next run starts from the same
    page; the store is deduplicated, if it can be read, and [scrape]
    returns. *)
Theorem listing_failure_keeps_checkpoint env fuel st url :
  url ≠ "" →
  header_ready env st →
  start_url (loaded (checkpoint st)) = Ok (JStr url) →
  (∀ n, non_success (net env n url)) →
  scrape env (S fuel) st
  = (Ok true,
     {| requests := requests st + 3; appends := appends st;
        saves := saves st;
        csv := Some (deduped env "title" fieldnames
                       (default [fieldnames] (csv st)));
        checkpoint := checkpoint st;
        trace := trace st ++ [EGet url; ESleep; EGet url; ESleep; EGet url;
                              EDedup] |}).
Proof.
  intros N Hr R F. rewrite (scrape_resolved env (S fuel) st url R).
  assert (G : ∀ s, retry_get env url s
                   = (Ok None,
                      {| requests := requests s + 3; appends := appends s;
                         saves := saves s; csv := csv s;
                         checkpoint := checkpoint s;
                         trace := trace s ++ [EGet url; ESleep; EGet url;
                                              ESleep; EGet url] |})).
  { intros s. apply retry_get_exhausted. intros n soup.
    by apply non_success_not_200. }
  unfold scrape_from. rewrite bind_run, ensure_csv_header_run.
  destruct st as [rq ap sv cs ck tr]. simpl.
  assert (L : ∀ s, (crawl_loop env (S fuel) 0 url ≫= λ ended : bool,
                    if ended
                    then deduplicate_csv env "title" fieldnames;; mret true
                    else mret false) s
                   = (Ok true,
                      {| requests := requests s + 3; appends := appends s;
                         saves := saves s;
                         csv := deduped env "title" fieldnames <$> csv s;
                         checkpoint := checkpoint s;
                         trace := trace s ++ [EGet url; ESleep; EGet url;
                                              ESleep; EGet url; EDedup] |})).
  { intros s. rewrite bind_run. cbn [crawl_loop].
    rewrite (proj2 (truthy_ne url) N). cbn [negb].
    rewrite bind_run, (crawl_page_failed env _ _ _ _ (G _)).
    unfold mret, io_ret. cbn iota beta.
    rewrite bind_run, deduplicate_csv_run. simpl.
    by rewrite <- app_assoc. }
  destruct cs as [t|]; simpl.
  - by rewrite L.
  - destruct Hr as [Hr|Hr]; [done|]. simpl in Hr. rewrite Hr.
    by rewrite L.
Qed.

(** X11 on a server that answers 500 to everything, at a first run. *)
Lemma listing_failure_keeps_checkpoint_witness :
  scrape (env_status 500) 1 fresh
  = (Ok true,
     {| requests := 3; appends := 0; saves := 0;
        csv := Some [fieldnames];
        checkpoint := CkAbsent;
        trace := [EGet BASE_URL; ESleep; EGet BASE_URL; ESleep;
                  EGet BASE_URL; EDedup] |}).
Proof.
  apply (listing_failure_keeps_checkpoint (env_status 500) 0 fresh BASE_URL).
  - done.
  - right. reflexivity.
  - reflexivity.
  - intros n. simpl. lia.
Defined.

(** X12.  An article without the link of its title gives no row and costs
    no request: the page is scraped as if the article were not there. *)
Theorem article_without_link_skipped env next_url before art after st :
  art_link art = None →
  scrape_article env next_url art st = (Ok [], st)
  ∧ scrape_articles env next_url (before ++ art :: after) st
    = scrape_articles env next_url (before ++ after) st.
Proof.
  intros L.
  assert (A : ∀ s, scrape_article env next_url art s = (Ok [], s)).
  { intros s. unfold scrape_article, IO.try_except. by rewrite L, bind_run. }
  split; [apply A|].
  destruct (scrape_articles_ok env next_url before st) as (rb & s1 & Eb & _).
  destruct (scrape_articles_ok env next_url after s1) as (ra & s2 & Ea & _).
  rewrite (scrape_articles_app env _ _ _ _ _ _ _ _ Eb Ea).
  apply (scrape_articles_app env _ _ _ _ _ _ _ _ Eb).
  simpl. by rewrite bind_run, A, bind_run, Ea.
Qed.

(** X12 on a page of the shop with an article that has no link. *)
Lemma article_without_link_skipped_witness :
  let broken := {| art_link := None; art_price := Some "£1.00";
                   art_rating := None |} in
  scrape_article env_shop BASE_URL broken fresh = (Ok [], fresh)
  ∧ scrape_articles env_shop BASE_URL
      ([] ++ broken :: [book "A Light in the Attic" "a.html"]) fresh
    = scrape_articles env_shop BASE_URL
        ([] ++ [book "A Light in the Attic" "a.html"]) fresh.
Proof.
  intros broken. apply article_without_link_skipped. reflexivity.
Defined.

(** X13.  The line [DictWriter] writes for an item is read back by
    [DictReader], under the field names, as the dict that was written, each
    value through [str], and its key for the deduplication is the title:
    so it is when the file can be read.  When a cell of the line is longer
    than the reader takes, the reading raises [csv.Error]. *)
Theorem item_round_trip env it :
  let t := [fieldnames; item_line env it] in
  Csv.writerow fieldnames (item_row env it) = Ok (item_line env it)
  ∧ (readable env t →
     read_csv env (with_csv t) = (Ok [item_row env it], with_csv t)
     ∧ key_of "title" fieldnames (item_line env it) = Some (title it))
  ∧ (read_fault env t = false → Csv.oversized t = true →
     read_csv env (with_csv t) = (Raise CsvError, with_csv t)).
Proof.
  intros t. split; [by vm_compute|].
  unfold read_csv, IO.get_csv, IO.lift, Csv.read. rewrite bind_run.
  cbn [csv with_csv]. split.
  - intros [-> ->]. split; by vm_compute.
  - by intros -> ->.
Qed.

(** X13 on the first book of the shop. *)
Lemma item_round_trip_witness :
  read_csv env_shop (with_csv [fieldnames; item_line env_shop first_book])
  = (Ok [item_row env_shop first_book],
     with_csv [fieldnames; item_line env_shop first_book])
  ∧ key_of "title" fieldnames (item_line env_shop first_book)
    = Some "A Light in the Attic".
Proof.
  apply (proj1 (proj2 (item_round_trip env_shop first_book))).
  split; reflexivity.
Defined.


(** ** Bookkeeping and pacing of the crawl *)








Lemma rested_nil : rested [].
Proof. done. Qed.










(** ** The one-shot scripts *)

Section OneShotFacts.

Variable env : Env.

Lemma books_of_length containers found :
  books_of containers = Some found → length found = length containers.
Proof.
  revert found. induction containers as [|c cs IH]; intros found; simpl.
  { by intros [= <-]. }
  destruct (book_of c) as [b|]; [|done]. simpl.
  destruct (books_of cs) as [bs|]; [|done]. simpl.
  intros [= <-]. simpl. by rewrite (IH bs).
Qed.

Lemma page_yield_inv base_url p found :
  page_yield env base_url p = Some found →
  ∃ soup, get_page env (p - 1) (page_url base_url p) = Some soup
          ∧ articles soup ≠ [] ∧ books_of (articles soup) = Some found
          ∧ found ≠ [].
Proof.
  unfold page_yield.
  destruct (get_page env (p - 1) (page_url base_url p)) as [soup|]; [|done].
  simpl. destruct (articles soup) as [|c cs] eqn:A; [done|].
  intros B. change (books_of (c :: cs) = Some found) in B.
  exists soup. rewrite A. split_and!; try done.
  apply books_of_length in B. by destruct found.
Qed.

(** The loop over the pages that yield books, up to the page that stops or
    crashes. *)
Lemma books_loop_pages base_url founds p books fuel :
  (∀ i found, founds !! i = Some found →
              page_yield env base_url (p + i) = Some found) →
  books_loop env (length founds + fuel) base_url p books
  = books_loop env fuel base_url (p + length founds) (books ++ concat founds).
Proof.
  revert p books. induction founds as [|found founds IH]; intros p books H.
  { simpl. by rewrite Nat.add_0_r, app_nil_r. }
  destruct (page_yield_inv base_url p found) as (soup & G & A & B & _).
  { rewrite <- (Nat.add_0_r p). by apply (H O). }
  cbn [length Nat.add books_loop]. rewrite G.
  destruct (articles soup) as [|c cs] eqn:Ea; [done|].
  rewrite B, IH.
  - rewrite <- app_assoc. f_equal. lia.
  - intros i f Hi. replace (S p + i)%nat with (p + S i)%nat by lia.
    by apply H.
Qed.

Lemma book_rows_written books :
  Csv.writerows ["title"; "price"] (book_row <$> books)
  = (book_line <$> books, true).
Proof.
  induction books as [|b books IH]; [done|].
  rewrite !fmap_cons. cbn [Csv.writerows]. rewrite IH.
  assert (Csv.writerow ["title"; "price"] (book_row b) = Ok (book_line b))
    as -> by reflexivity.
  done.
Qed.

(** X16.  [scrape_books] asks for the pages in turn, [base_url] first and
    then [base_url/page-2/], [base_url/page-3/], ..., until a request fails
    or a page has no book; it then writes the books of the pages before, in
    their order, under the header title, price.  A write that fails leaves
    the lines written before the failure.  When the first page already
    stops the loop, the output file is not touched. *)
Theorem scrape_books_collects base_url founds fuel write_fault file :
  (∀ i found, founds !! i = Some found →
              page_yield env base_url (S i) = Some found) →
  page_stops env base_url (S (length founds)) →
  books_loop env (length founds + S fuel) base_url 1 []
  = (Returned, concat founds)
  ∧ scrape_books env (length founds + S fuel) base_url write_fault file
    = (Returned,
       match founds with
       | [] => file
       | _ =>
           let lines := ["title"; "price"] :: (book_line <$> concat founds) in
           match write_fault with
           | None => Some lines
           | Some k => Some (take k lines)
           end
       end).
Proof.
  intros H Stop.
  assert (L : books_loop env (length founds + S fuel) base_url 1 []
              = (Returned, concat founds)).
  { rewrite books_loop_pages by done.
    change (1 + length founds)%nat with (S (length founds)).
    cbn [books_loop app].
    destruct Stop as [->|(soup & -> & ->)]; done. }
  split; [done|]. unfold scrape_books. rewrite L. f_equal.
  destruct founds as [|found founds]; [done|].
  destruct (page_yield_inv base_url 1 found) as (_ & _ & _ & _ & N).
  { by apply (H O). }
  unfold save_books. simpl concat.
  destruct (found ++ concat founds) as [|b bs] eqn:E.
  { by apply app_eq_nil in E as [? _]. }
  by rewrite book_rows_written.
Qed.

(** X17.  A container without its title link, its title attribute or its
    price makes [scrape_books] raise an exception that its handler does not
    catch: the script ends there and nothing is written, the books of the
    pages before are lost with the rest. *)
Theorem scrape_books_crash_loses_all base_url founds fuel write_fault file :
  (∀ i found, founds !! i = Some found →
              page_yield env base_url (S i) = Some found) →
  page_crashes env base_url (S (length founds)) →
  scrape_books env (length founds + S fuel) base_url write_fault file
  = (Crashed, file).
Proof.
  intros H (soup & G & A & B). unfold scrape_books.
  rewrite books_loop_pages by done.
  change (1 + length founds)%nat with (S (length founds)).
  cbn [books_loop app]. rewrite G. destruct (articles soup) as [|c cs] eqn:Ea; [done|].
  by rewrite B.
Qed.

Lemma homepage_row_linked art a :
  art_link art = Some a → ∃ row, homepage_row env art = Some row.
Proof.
  intros L. unfold homepage_row. rewrite L. simpl.
  destruct (parse_price_value
              match art_price art with
              | Some text => Text.strip text
              | None => ""
              end) as [_ ->].
  by eexists.
Qed.

(** X18.  [scrape_homepage] exits with code 1, without writing, when the
    page cannot be fetched.  When every article has its title link it
    writes the header title, price, rating and one line for each article,
    in the order of the page.  When an article lacks the link it raises and
    writes nothing. *)
Theorem scrape_homepage_outcomes url file :
  (get_page env 0 url = None →
   scrape_homepage env url file = (Exited 1, file))
  ∧ (∀ soup,
       get_page env 0 url = Some soup →
       Forall (λ art, is_Some (art_link art)) (articles soup) →
       ∃ rows,
         scrape_homepage env url file
         = (Returned,
            Some (["title"; "price"; "rating"] :: (homepage_line env <$> rows)))
         ∧ Forall2 (λ art row, homepage_row env art = Some row)
             (articles soup) rows)
  ∧ (∀ soup,
       get_page env 0 url = Some soup →
       Exists (λ art, art_link art = None) (articles soup) →
       scrape_homepage env url file = (Crashed, file)).
Proof.
  unfold scrape_homepage. split; [by intros ->|]. split.
  - intros soup -> F.
    assert (R : ∃ rows, homepage_rows env (articles soup) = Some rows
                        ∧ Forall2 (λ art row, homepage_row env art = Some row)
                            (articles soup) rows).
    { induction F as [|art arts [a L] _ (rows & IH & F2)].
      { exists []. by split; [|constructor]. }
      destruct (homepage_row_linked art a L) as [row Er].
      exists (row :: rows). simpl. rewrite Er, IH. simpl.
      split; [done|by constructor]. }
    destruct R as (rows & -> & F2). by exists rows.
  - intros soup -> X.
    assert (R : homepage_rows env (articles soup) = None).
    { induction X as [art arts L|art arts _ IH]; simpl.
      - unfold homepage_row. by rewrite L.
      - rewrite IH. by destruct (homepage_row env art). }
    by rewrite R.
Qed.

End OneShotFacts.

(** X16 on the shop: its home page has a book, and it has no page 2 under
    the address [scrape_books] builds. *)
Lemma scrape_books_collects_witness :
  books_loop env_shop 2 BASE_URL 1 []
  = (Returned, [("A Light in the Attic", "£51.77")])
  ∧ scrape_books env_shop 2 BASE_URL None None
    = (Returned,
       Some [["title"; "price"]; ["A Light in the Attic"; "£51.77"]]).
Proof.
  apply (scrape_books_collects env_shop BASE_URL
           [[("A Light in the Attic", "£51.77")]] 0 None None).
  - intros [|i] found; [|done]. intros [= <-]. reflexivity.
  - left. reflexivity.
Defined.

(** X17 on a site whose second page has a book without price. *)
Lemma scrape_books_crash_loses_all_witness :
  let broken := {| articles := [ {| art_link := art_link
                                      (book "Tipping the Velvet" "b.html");
                                    art_price := None;
                                    art_rating := None |} ];
                   next_link := None; info_table := None |} in
  let env := {| net := λ n url, if (n =? 0)%nat then Response 200 shop_home
                                else Response 200 broken;
                utcnow := utcnow env_shop;
                append_fault := append_fault env_shop;
                save_faults := save_faults env_shop;
                header_fault := header_fault env_shop;
                read_fault := read_fault env_shop;
                rewrite_fault := rewrite_fault env_shop;
                urljoin := urljoin env_shop;
                capitalize := capitalize env_shop;
                float_repr := float_repr env_shop;
                int_of_text := int_of_text env_shop |} in
  scrape_books env 2 BASE_URL None (Some [["title"; "price"]])
  = (Crashed, Some [["title"; "price"]]).
Proof.
  intros broken env.
  apply (scrape_books_crash_loses_all env BASE_URL
           [[("A Light in the Attic", "£51.77")]] 0 None).
  - intros [|i] found; [|done]. intros [= <-]. reflexivity.
  - exists broken. split; [reflexivity|]. split; [done|reflexivity].
Defined.

(** X18 on the home page of the shop, and on a server that answers 500. *)
Lemma scrape_homepage_outcomes_witness :
  scrape_homepage (env_status 500) BASE_URL None = (Exited 1, None)
  ∧ ∃ rows,
      scrape_homepage env_shop BASE_URL None
      = (Returned,
         Some (["title"; "price"; "rating"]
               :: (homepage_line env_shop <$> rows)))
      ∧ Forall2 (λ art row, homepage_row env_shop art = Some row)
          (articles shop_home) rows.
Proof.
  split.
  - apply (proj1 (scrape_homepage_outcomes (env_status 500) BASE_URL None)).
    reflexivity.
  - apply (proj1 (proj2 (scrape_homepage_outcomes env_shop BASE_URL None))).
    + reflexivity.
    + repeat constructor. by eexists.
Defined.

(** ** The two scripts on one article *)




(** ** A crawl without end, and short lines *)

(** X20.  A listing page whose next link has no href sends the crawl back
    to the same page: [urljoin] gives the page's own address.  When the
    server keeps answering, the loop never ends; each turn appends the
    rows of the page again and saves the same checkpoint. *)
Theorem crawl_never_ends env next_url soup :
  next_url ≠ "" →
  (∀ n, net env n next_url = Response 200 soup) →
  next_link soup = Some None →
  ∀ fuel page_count st,
    ∃ st', crawl_loop env fuel page_count next_url st = (Ok false, st')
           ∧ appends st' = (appends st + fuel)%nat
           ∧ saves st' = (saves st + fuel)%nat.
Proof.
  intros N Hnet Hnext fuel.
  induction fuel as [|fuel IH]; intros page_count st; cbn [crawl_loop];
    rewrite (proj2 (truthy_ne next_url) N); cbn [negb].
  { exists st. split_and!; [done|lia|lia]. }
  rewrite bind_run.
  assert (E1 : retry_get env next_url st
               = (Ok (Some soup), slept (sent next_url st))).
  { unfold retry_get. simpl seq.
    by rewrite retry_attempts_cons, (attempt_200 env _ _ soup). }
  destruct (scrape_articles_ok env next_url (articles soup)
              (slept (sent next_url st)))
    as (rows & st2 & E2 & (A2 & S2 & _)).
  rewrite (crawl_page_steps env _ _ _ _ _ _ _ E1 E2).
  unfold next_cursor. rewrite Hnext. cbn [py_urljoin cursor_url].
  destruct (IH (S page_count)
              (save_checkpoint env (checkpoint_of (JStr next_url))
                 (append_page env rows (S page_count) st2).2).2)
    as (st' & -> & A & S).
  exists st'. split; [done|].
  rewrite save_checkpoint_run, append_page_run in A, S. cbn [snd] in A, S.
  destruct (append_fault env (appends st2)); simpl in *; lia.
Qed.

(** X20 on a server whose only page has a next link without href. *)
Lemma crawl_never_ends_witness :
  let looping := {| articles := []; next_link := Some None;
                    info_table := None |} in
  let env := {| net := λ _ _, Response 200 looping;
                utcnow := utcnow env_shop;
                append_fault := append_fault env_shop;
                save_faults := save_faults env_shop;
                header_fault := header_fault env_shop;
                read_fault := read_fault env_shop;
                rewrite_fault := rewrite_fault env_shop;
                urljoin := urljoin env_shop;
                capitalize := capitalize env_shop;
                float_repr := float_repr env_shop;
                int_of_text := int_of_text env_shop |} in
  ∃ st', crawl_loop env 3 0 BASE_URL fresh = (Ok false, st')
         ∧ appends st' = (appends fresh + 3)%nat
         ∧ saves st' = (saves fresh + 3)%nat.
Proof.
  intros looping env.
  apply (crawl_never_ends env BASE_URL looping); done.
Defined.

Section ShortRow.

Variables (key_field : string) (names : list string).

Lemma pad_length l :
  (length l ≤ length names)%nat →
  length (Csv.pad (length names) l) = length names.
Proof.
  intros H. unfold Csv.pad. rewrite length_app, length_fmap, length_replicate.
  lia.
Qed.

Lemma get_read_short l i f :
  NoDup names → (length l ≤ length names)%nat →
  names !! i = Some f →
  Csv.get f (Csv.read_row names l) = l !! i.
Proof.
  intros ND Hl Hf. unfold Csv.get, Csv.read_row. simpl.
  assert (Hp : ∃ o, Csv.pad (length names) l !! i = Some o ∧ mjoin (Some o) = l !! i).
  { unfold Csv.pad. destruct (l !! i) as [c|] eqn:Ec.
    - exists (Some c). rewrite lookup_app_l
        by (rewrite length_fmap; by eapply lookup_lt_Some).
      by rewrite list_lookup_fmap, Ec.
    - exists None. split; [|done]. apply lookup_ge_None in Ec.
      rewrite lookup_app_r by (by rewrite length_fmap).
      apply lookup_replicate. split; [done|].
      rewrite length_fmap. apply lookup_lt_Some in Hf. lia. }
  destruct Hp as (o & Ho & <-).
  erewrite elem_of_list_to_map_1 with (x := o); [done| |].
  - rewrite fmap_reverse, fst_zip by (rewrite pad_length; lia).
    by rewrite reverse_Permutation.
  - apply elem_of_reverse. apply list_elem_of_lookup. exists i.
    apply lookup_zip_with_Some. by exists f, o.
Qed.

(** X21.  A row with fewer cells than the header has names is kept like
    any other, and rewritten with empty cells in the places it lacked. *)
Theorem dedup_pads_short_row l :
  NoDup names →
  (length l ≤ length names)%nat →
  usable_key (key_of key_field names l) →
  dedup_table key_field names [names; l]
  = [names; l ++ replicate (length names - length l) ""].
Proof.
  intros ND Hl (k & Ek & Nk). rewrite dedup_table_kept. cbn [kept_from].
  rewrite Ek.
  assert (T : Text.truthy k && negb (bool_decide (k ∈ @nil string)) = true).
  { apply takes_iff. split; [done|]. by intros ?%elem_of_nil. }
  rewrite T. do 2 f_equal. rewrite fmap_cons. cbn [Csv.writerows fmap list_fmap].
  assert (W : Csv.writerow names (Csv.read_row names l)
              = Ok (l ++ replicate (length names - length l) "")).
  { unfold Csv.writerow.
    rewrite bool_decide_eq_true_2; last first.
    { unfold Csv.read_row. simpl. rewrite dom_list_to_map_L.
      intros n. rewrite !elem_of_list_to_set, fmap_reverse, elem_of_reverse.
      intros ((m & x) & -> & Hm)%list_elem_of_fmap.
      by apply elem_of_zip_l in Hm. }
    rewrite bool_decide_eq_true_2; last first.
    { unfold Csv.read_row. simpl. by rewrite (proj2 (Nat.ltb_ge _ _)). }
    simpl. f_equal. apply list_eq. intros i. rewrite list_lookup_fmap.
    destruct (names !! i) as [f|] eqn:Ef; simpl.
    - rewrite (get_read_short l i f ND Hl Ef).
      destruct (l !! i) as [c|] eqn:Ec; simpl.
      + by rewrite lookup_app_l, Ec by (by eapply lookup_lt_Some).
      + apply lookup_ge_None in Ec. rewrite lookup_app_r by done.
        symmetry. apply lookup_replicate. split; [done|].
        apply lookup_lt_Some in Ef. lia.
    - symmetry. apply lookup_ge_None. apply lookup_ge_None in Ef.
      rewrite length_app, length_replicate. lia. }
  by rewrite W.
Qed.

End ShortRow.

(** X21 on a row that lacks its last cell. *)
Lemma dedup_pads_short_row_witness :
  dedup_table "key" ["key"; "v"; "w"] [["key"; "v"; "w"]; ["A"; "1"]]
  = [["key"; "v"; "w"]; ["A"; "1"] ++ replicate (3 - 2) ""].
Proof.
  apply dedup_pads_short_row.
  - apply (bool_decide_unpack _). by vm_compute.
  - simpl. lia.
  - exists "A". split; [by vm_compute|done].
Defined.
